(** * rolling: the sliding-window iteration engine

    A shallow embedding of [rolling/base.py] (class [RollingObject]) and of
    the two window strategies the test-suite drives through it, [Apply] and
    [PolynomialHash].

    Python objects are mutable and methods may raise; the embedding threads
    the object through every call and keeps the object as it is at the
    moment an exception leaves the method. *)

From Stdlib Require Import ZArith QArith Lia String.
From stdpp Require Import base option list gmap strings pretty.

Local Open Scope Z_scope.

(** ** Python values and exceptions *)

(** The exceptions that the modelled code can raise. *)
Inductive exn : Type :=
| StopIteration
| ValueError
| TypeError
| AttributeError
| IndexError.

(** The values a caller may pass as [window_size] or [window_type]. *)
Inductive pyval : Type :=
| PyInt (z : Z)
| PyBool (b : bool)
| PyFloat (q : Q)
| PyStr (s : string)
| PyNone.

(** [isinstance(k, int)]: [bool] is a subclass of [int]. *)
Definition isinstance_int (k : pyval) : bool :=
  match k with
  | PyInt _ | PyBool _ => true
  | _ => false
  end.

(** The integer a value of type [int] (or [bool]) stands for. *)
Definition int_value (k : pyval) : option Z :=
  match k with
  | PyInt z => Some z
  | PyBool b => Some (if b then 1 else 0)
  | _ => None
  end.

(** [v == s] for a string literal [s]. *)
Definition py_eq_str (v : pyval) (s : string) : bool :=
  match v with
  | PyStr t => bool_decide (t = s)
  | _ => false
  end.

(** [n < k] and [n == k] for a Python int [n]; ordering an int against a
    value that is not a number raises [TypeError], equality is just false. *)
Definition py_int_lt (n : Z) (k : pyval) : exn + bool :=
  match k with
  | PyInt z => inr (n <? z)
  | PyBool b => inr (n <? (if b then 1 else 0))
  | PyFloat q => inr (Qle_bool (inject_Z n) q && negb (Qeq_bool (inject_Z n) q))
  | _ => inl TypeError
  end.

Definition py_int_eq (n : Z) (k : pyval) : bool :=
  match k with
  | PyInt z => n =? z
  | PyBool b => n =? (if b then 1 else 0)
  | PyFloat q => Qeq_bool (inject_Z n) q
  | _ => false
  end.

(** ** A state-and-exception monad

    [M St A] is a method body run on an object of type [St]: it returns a
    value or raises, and in both cases hands back the object. *)
Definition M (St A : Type) : Type := St → (exn + A) * St.

Definition ret {St A} (a : A) : M St A := λ s, (inr a, s).
Definition raise {St A} (e : exn) : M St A := λ s, (inl e, s).
Definition bind {St A B} (m : M St A) (k : A → M St B) : M St B :=
  λ s, match m s with
       | (inr a, s') => k a s'
       | (inl e, s') => (inl e, s')
       end.
Definition get {St} : M St St := λ s, (inr s, s).
Definition modify {St} (f : St → St) : M St unit := λ s, (inr tt, f s).
(** [try: m except StopIteration: h] *)
Definition try_except_StopIteration {St A} (m h : M St A) : M St A :=
  λ s, match m s with
       | (inl StopIteration, s') => h s'
       | r => r
       end.
Definition lift_exn {St A} (r : exn + A) : M St A :=
  match r with inl e => raise e | inr a => ret a end.

Declare Scope py_scope.
Delimit Scope py_scope with py.
Notation "'do' x <~ m ; k" := (bind m (λ x, k))
  (at level 10, x name, m at level 100, k at level 200) : py_scope.
Notation "'run' m ; k" := (bind m (λ _, k))
  (at level 10, m at level 100, k at level 200) : py_scope.

(** [next(it)] on the iterator of a finite sequence. *)
Definition next_it (it : list Z) : (exn + Z) * list Z :=
  match it with
  | [] => (inl StopIteration, [])
  | x :: rest => (inr x, rest)
  end.

(** ** The strategy interface

    The abstract methods of [RollingObject].  A strategy keeps private state
    [S]; the methods that pull from [self._iterator] see it next to that
    state.  [_obs] is the attribute variable-length instances must have. *)
Class Strategy (S V : Type) : Type := {
  _init_fixed : list Z → pyval → S * list Z;
  _init_variable : list Z → pyval → S * list Z;
  _update : M (S * list Z) unit;
  _add_new : M (S * list Z) unit;
  _remove_old : M (S * list Z) unit;
  current_value : S → V;
  _obs : S → Z;
}.

(** ** The engine: [RollingObject] *)

(** What [cls.__init__] and [cls.__next__] are bound to.  [__new__] assigns
    both on the class, not on the instance. *)
Inductive binding : Type := bound_fixed | bound_variable.

Record class_dict : Type := {
  cls__init__ : option binding;
  cls__next__ : option binding;
}.

(** A class no instance of which has been requested yet. *)
Definition fresh_class : class_dict :=
  {| cls__init__ := None; cls__next__ := None |}.

(** The instance attributes set by [__new__]; [_filled] exists on
    variable-length instances only. *)
Record RollingObject (S : Type) : Type := {
  window_type : pyval;
  window_size : pyval;
  _iterator : list Z;
  _filled : option bool;
  strat : S;
}.
Arguments window_type {S} _.
Arguments window_size {S} _.
Arguments _iterator {S} _.
Arguments _filled {S} _.
Arguments strat {S} _.

(** [_validate_window_size]: check if k is a positive integer. *)
Definition _validate_window_size (k : pyval) : exn + pyval :=
  if negb (isinstance_int k) then inl TypeError
  else match int_value k with
       | Some z => if z <=? 0 then inl ValueError else inr k
       | None => inl TypeError
       end.

(** [kwargs.get('window_type', 'fixed')] *)
Definition kwargs_window_type (kwargs : gmap string pyval) : pyval :=
  default (PyStr "fixed"%string) (kwargs !! "window_type"%string).

Local Open Scope py_scope.

(** [RollingObject.__new__(cls, iterable, window_size, **kwargs)].  The
    class attributes are rebound before the window size is validated, and
    the iterator is taken from the iterable after it. *)
Definition __new__ (cls : class_dict) (iterable : list Z)
    (window_size : pyval) (kwargs : gmap string pyval)
  : class_dict * (exn + RollingObject unit) :=
  let window_type := kwargs_window_type kwargs in
  let rebound :=
    if py_eq_str window_type "fixed"%string then
      inr {| cls__init__ := Some bound_fixed; cls__next__ := Some bound_fixed |}
    else if py_eq_str window_type "variable"%string then
      inr {| cls__init__ := Some bound_variable;
             cls__next__ := Some bound_variable |}
    else inl ValueError in
  match rebound with
  | inl e => (cls, inl e)
  | inr cls' =>
      match _validate_window_size window_size with
      | inl e => (cls', inl e)
      | inr k =>
          (cls', inr {| window_type := window_type;
                        window_size := k;
                        _iterator := iterable;
                        _filled := if py_eq_str window_type "variable"%string
                                   then Some false else None;
                        strat := tt |})
      end
  end.

Section Engine.
Context {S V : Type} `{Strategy S V}.

(** Run a strategy method on [self]. *)
Definition on_self (m : M (S * list Z) unit) : M (RollingObject S) unit :=
  λ o, let '(r, (s, it)) := m (strat o, _iterator o) in
       (r, {| window_type := window_type o; window_size := window_size o;
              _iterator := it; _filled := _filled o; strat := s |}).

Definition self_current_value : M (RollingObject S) V :=
  λ o, (inr (current_value (strat o)), o).

(** Reading [self._filled] on an instance that lacks the attribute. *)
Definition self_filled : M (RollingObject S) bool :=
  λ o, match _filled o with
       | Some b => (inr b, o)
       | None => (inl AttributeError, o)
       end.

Definition set_filled (b : bool) (o : RollingObject S) : RollingObject S :=
  {| window_type := window_type o; window_size := window_size o;
     _iterator := _iterator o; _filled := Some b; strat := strat o |}.

(** [_next_fixed]: return the next value for fixed-length windows. *)
Definition _next_fixed : M (RollingObject S) V :=
  run on_self _update;
  self_current_value.

(** [_next_variable]: return the next value for variable-length windows. *)
Definition _next_variable : M (RollingObject S) V :=
  do filled <~ self_filled;
  do growing <~ (if filled then ret false
                 else do o <~ get;
                      lift_exn (py_int_lt (_obs (strat o)) (window_size o)));
  if (growing : bool) then
    run on_self _add_new;
    do o <~ get;
    run (if py_int_eq (_obs (strat o)) (window_size o)
         then modify (set_filled true) else ret tt);
    self_current_value
  else
    try_except_StopIteration
      (run on_self _update; self_current_value)
      (do o <~ get;
       if _obs (strat o) =? 1 then raise StopIteration
       else run on_self _remove_old; self_current_value).

(** [next(obj)] looks [__next__] up on the class. *)
Definition __next__ (cls : class_dict) : M (RollingObject S) V :=
  match cls__next__ cls with
  | Some bound_fixed => _next_fixed
  | Some bound_variable => _next_variable
  | None => raise TypeError
  end.

(** [cls.__init__(self, iterable, window_size, **kwargs)], looked up on
    the class as well. *)
Definition __init__ (cls : class_dict) (self : RollingObject unit)
    (size : pyval) : exn + RollingObject S :=
  match cls__init__ cls with
  | Some b =>
      let '(s, it) :=
        match b with
        | bound_fixed => _init_fixed (_iterator self) size
        | bound_variable => _init_variable (_iterator self) size
        end in
      inr {| window_type := window_type self;
             window_size := window_size self;
             _iterator := it; _filled := _filled self; strat := s |}
  | None => inl TypeError
  end.

(** The result of calling the class: the class afterwards, the exception
    or the instance, and what is left of the caller's source. *)
Record constructed : Type := {
  cls_after : class_dict;
  outcome : exn + RollingObject S;
  source_after : list Z;
}.

(** [cls(iterable, window_size, **kwargs)]: [__new__], then [__init__]
    on the instance it returned. *)
Definition construct (cls : class_dict) (iterable : list Z)
    (window_size : pyval) (kwargs : gmap string pyval) : constructed :=
  match __new__ cls iterable window_size kwargs with
  | (cls', inl e) =>
      {| cls_after := cls'; outcome := inl e; source_after := iterable |}
  | (cls', inr self) =>
      match __init__ cls' self window_size with
      | inl e =>
          {| cls_after := cls'; outcome := inl e;
             source_after := _iterator self |}
      | inr o =>
          {| cls_after := cls'; outcome := inr o;
             source_after := _iterator o |}
      end
  end.

(** [n] consecutive calls of [next(obj)], whatever they return. *)
Fixpoint advance_n (n : nat) (cls : class_dict) (o : RollingObject S)
  : list (exn + V) * RollingObject S :=
  match n with
  | O => ([], o)
  | Datatypes.S n' =>
      let '(r, o') := __next__ cls o in
      let '(rs, o'') := advance_n n' cls o' in
      (r :: rs, o'')
  end.

(** [list(obj)]: call [next] until [StopIteration]; any other exception
    propagates.  [None] when [fuel] calls were not enough. *)
Fixpoint py_list (fuel : nat) (cls : class_dict) (o : RollingObject S)
  : option ((exn + list V) * RollingObject S) :=
  match fuel with
  | O => None
  | Datatypes.S fuel' =>
      match __next__ cls o with
      | (inr v, o') =>
          match py_list fuel' cls o' with
          | Some (inr vs, o'') => Some (inr (v :: vs), o'')
          | r => r
          end
      | (inl StopIteration, o') => Some (inr [], o')
      | (inl e, o') => Some (inl e, o')
      end
  end.
End Engine.

(** Converting an [int] to its decimal string is limited by the
    interpreter: with [max_str_digits] set (4300 by default from Python
    3.11 on, [sys.get_int_max_str_digits()]), an [int] of more digits than
    that, the sign not counted, is refused with a [ValueError]; 0 stands for
    no limit, as in the interpreters before. *)
Definition int_max_str_digits_exceeded (max_str_digits : nat) (z : Z)
  : bool :=
  negb (Nat.eqb max_str_digits 0)
  && Nat.ltb max_str_digits (String.length (pretty (Z.abs z))).

(** [str(v)], as [str.format] renders a [{}] field: an [int] in decimal, or a
    [ValueError] when it has too many digits, a [bool] by name, a [str] as
    it is.  The decimal form of a [float] is not modelled ([None]). *)
Definition py_str (max_str_digits : nat) (v : pyval)
  : option (exn + string) :=
  match v with
  | PyInt z =>
      if int_max_str_digits_exceeded max_str_digits z
      then Some (inl ValueError) else Some (inr (pretty z))
  | PyBool b => Some (inr (if b then "True" else "False")%string)
  | PyStr s => Some (inr s)
  | PyNone => Some (inr "None"%string)
  | PyFloat _ => None
  end.

(** The format string of [__repr__], its three fields filled in. *)
Definition repr_string (class_name size type : string) : string :=
  ("Rolling(func='" +:+ class_name +:+ "', window_size=" +:+ size
   +:+ ", window_type='" +:+ type +:+ "')")%string.

(** [RollingObject.__repr__], with [class_name] for
    [self.__class__.__name__]; the fields are rendered from left to right,
    and an exception from rendering one leaves [__repr__]. *)
Definition __repr__ {S} (max_str_digits : nat) (class_name : string)
    (self : RollingObject S) : option (exn + string) :=
  match py_str max_str_digits (window_size self) with
  | None => None
  | Some (inl e) => Some (inl e)
  | Some (inr size) =>
      match py_str max_str_digits (window_type self) with
      | None => None
      | Some (inl e) => Some (inl e)
      | Some (inr type) => Some (inr (repr_string class_name size type))
      end
  end.

(** [RollingObject.__iter__]: the engine is its own iterator. *)
Definition __iter__ {S} (self : RollingObject S) : RollingObject S := self.

(** ** The [Apply] strategy *)

(** The first [window_size - 1] elements of the source, as a fixed-length
    window takes them at construction. *)
Definition head_count (size : pyval) : nat :=
  match int_value size with
  | Some z => Z.to_nat (z - 1)
  | None => O
  end.

(** [rolling/apply.py] is not among the sources; its methods follow the
    specification's section 4.3: a FIFO buffer of raw elements and the
    caller's reduction function. *)
Module ApplyImpl.
(** Modelled from the spec: [Apply._init_fixed], missing with
    [rolling/apply.py].  The spec does not describe construction; the first
    value of a fixed window is the aggregate of the first full window (its
    section 8) and [update] always pops the front, so the buffer starts as
    one placeholder, which the first [update] evicts, followed by the first
    [window_size - 1] elements of the source. *)
Definition init_fixed (it : list Z) (size : pyval) : list Z * list Z :=
  (0 :: take (head_count size) it, drop (head_count size) it).

(** Modelled from the spec: [Apply._init_variable], missing with
    [rolling/apply.py]: a variable window starts empty and is filled by
    [add_new]. *)
Definition init_variable (it : list Z) (size : pyval) : list Z * list Z :=
  ([], it).

(** Modelled from the spec: [Apply._add_new], missing with
    [rolling/apply.py]: take one element from the source and push it to the
    back of the buffer; fails only when the source has no next element. *)
Definition add_new : M (list Z * list Z) unit :=
  λ '(buffer, it),
    match next_it it with
    | (inl e, it') => (inl e, (buffer, it'))
    | (inr new, it') => (inr tt, (buffer ++ [new], it'))
    end.

(** Modelled from the spec: [Apply._remove_old], missing with
    [rolling/apply.py]: pop from the front; popping an empty buffer is the
    fault the spec calls unreachable, an [IndexError] here. *)
Definition remove_old : M (list Z * list Z) unit :=
  λ '(buffer, it),
    match buffer with
    | [] => (inl IndexError, (buffer, it))
    | _ :: rest => (inr tt, (rest, it))
    end.

(** Modelled from the spec: [Apply._update], missing with
    [rolling/apply.py]: pop the front and push the new element to the back
    if there is one, else report exhaustion without popping. *)
Definition update : M (list Z * list Z) unit :=
  λ '(buffer, it),
    match next_it it with
    | (inl e, it') => (inl e, (buffer, it'))
    | (inr new, it') =>
        match buffer with
        | [] => (inl IndexError, (buffer, it'))
        | _ :: rest => (inr tt, (rest ++ [new], it'))
        end
    end.

(** Modelled from the spec: [Apply._obs], missing with [rolling/apply.py]:
    the number of elements in the window. *)
Definition obs (buffer : list Z) : Z := Z.of_nat (length buffer).
End ApplyImpl.

(** Modelled from the spec: the class [Apply] of [rolling/apply.py], which
    is not among the sources; [current_value] applies the reduction to the
    buffer's contents, in order. *)
#[export] Instance Apply {V : Type} (operation : list Z → V)
  : Strategy (list Z) V := {|
  _init_fixed := ApplyImpl.init_fixed;
  _init_variable := ApplyImpl.init_variable;
  _update := ApplyImpl.update;
  _add_new := ApplyImpl.add_new;
  _remove_old := ApplyImpl.remove_old;
  current_value := operation;
  _obs := ApplyImpl.obs;
|}.

(** ** The [PolynomialHash] strategy and its helpers *)

(** Modelled from the spec: the modular power of [rolling/hash.py], which
    is not among the sources: [base^n mod m] by fast (square-and-multiply)
    modular exponentiation, here on the binary digits of a positive [n]. *)
Fixpoint pow_mod_pos (base : Z) (n : positive) (m : Z) : Z :=
  match n with
  | xH => base mod m
  | xO n' => let r := pow_mod_pos base n' m in (r * r) mod m
  | xI n' => let r := pow_mod_pos base n' m in ((r * r) mod m * base) mod m
  end.

(** Modelled from the spec: the modular power of [rolling/hash.py] for any
    exponent the strategy uses ([n - 1] with [n] a window length). *)
Definition pow_mod (base n m : Z) : Z :=
  match n with
  | Z0 => 1 mod m
  | Zpos p => pow_mod_pos base p m
  | Zneg _ => 0
  end.

(** Modelled from the spec: [polynomial_hash_sequence] of [rolling/hash.py],
    which is not among the sources: the hash of a finite sequence by
    left-to-right Horner evaluation under the modulus. *)
Definition polynomial_hash_sequence (seq : list Z) (base m : Z) : Z :=
  fold_left (λ h x, (h * base + x) mod m) seq 0.

(** Modelled from the spec: the private state of [PolynomialHash], missing
    with [rolling/hash.py]: the running accumulator, the FIFO buffer of the
    raw elements in the window, and the window size that [update] uses. *)
Record PolynomialHashState : Type := {
  ph_hash : Z;
  ph_buffer : list Z;
  ph_size : Z;
}.

(** [rolling/hash.py] is not among the sources; the methods of
    [PolynomialHash] follow the specification's section 4.4. *)
Module PolynomialHashImpl.
Section WithParameters.
Variables base m : Z.

(** Modelled from the spec: what [PolynomialHash.add_new(x)] does to the
    state: [H <- (H * base + x) mod m], and [x] pushed to the back. *)
Definition push (s : PolynomialHashState) (x : Z) : PolynomialHashState :=
  {| ph_hash := (ph_hash s * base + x) mod m;
     ph_buffer := ph_buffer s ++ [x];
     ph_size := ph_size s |}.

(** Modelled from the spec: what [PolynomialHash.remove_old] does to the
    state, for a window of [n] elements with [x0] at the front:
    [H <- ((H - x0 * base^(n-1)) mod m + m) mod m], and the front popped. *)
Definition evict (n : Z) (x0 : Z) (rest : list Z)
    (s : PolynomialHashState) : PolynomialHashState :=
  {| ph_hash := ((ph_hash s - x0 * pow_mod base (n - 1) m) mod m + m) mod m;
     ph_buffer := rest;
     ph_size := ph_size s |}.

(** Modelled from the spec: [PolynomialHash._init_fixed], missing with
    [rolling/hash.py].  Construction is not described: as for [Apply], a
    fixed window starts from a zero placeholder, of hash 0, and folds the
    first [window_size - 1] elements in with [add_new]'s formula. *)
Definition init_fixed (it : list Z) (size : pyval)
  : PolynomialHashState * list Z :=
  (fold_left push (take (head_count size) it)
     {| ph_hash := 0; ph_buffer := [0];
        ph_size := default 0 (int_value size) |},
   drop (head_count size) it).

(** Modelled from the spec: [PolynomialHash._init_variable], missing with
    [rolling/hash.py]: an empty window, of hash 0. *)
Definition init_variable (it : list Z) (size : pyval)
  : PolynomialHashState * list Z :=
  ({| ph_hash := 0; ph_buffer := [];
      ph_size := default 0 (int_value size) |}, it).

(** Modelled from the spec: [PolynomialHash._add_new], missing with
    [rolling/hash.py]; fails only when the source has no next element. *)
Definition add_new : M (PolynomialHashState * list Z) unit :=
  λ '(s, it),
    match next_it it with
    | (inl e, it') => (inl e, (s, it'))
    | (inr x, it') => (inr tt, (push s x, it'))
    end.

(** Modelled from the spec: [PolynomialHash._remove_old], missing with
    [rolling/hash.py], with [n] the current logical size. *)
Definition remove_old : M (PolynomialHashState * list Z) unit :=
  λ '(s, it),
    match ph_buffer s with
    | [] => (inl IndexError, (s, it))
    | x0 :: rest =>
        (inr tt, (evict (Z.of_nat (length (ph_buffer s))) x0 rest s, it))
    end.

(** Modelled from the spec: [PolynomialHash._update], missing with
    [rolling/hash.py], with [n] the window size: evict the front, then
    admit the new element; with no new element, report exhaustion and leave
    the hash and the buffer untouched. *)
Definition update : M (PolynomialHashState * list Z) unit :=
  λ '(s, it),
    match next_it it with
    | (inl e, it') => (inl e, (s, it'))
    | (inr x_new, it') =>
        match ph_buffer s with
        | [] => (inl IndexError, (s, it'))
        | x0 :: rest =>
            (inr tt, (push (evict (ph_size s) x0 rest s) x_new, it'))
        end
    end.

(** Modelled from the spec: [PolynomialHash._obs], missing with
    [rolling/hash.py]: the number of elements in the window. *)
Definition obs (s : PolynomialHashState) : Z :=
  Z.of_nat (length (ph_buffer s)).
End WithParameters.
End PolynomialHashImpl.

(** Modelled from the spec: the class [PolynomialHash] of
    [rolling/hash.py], which is not among the sources; [current_value]
    returns the running hash. *)
#[export] Instance PolynomialHash (base m : Z)
  : Strategy PolynomialHashState Z := {|
  _init_fixed := PolynomialHashImpl.init_fixed base m;
  _init_variable := PolynomialHashImpl.init_variable;
  _update := PolynomialHashImpl.update base m;
  _add_new := PolynomialHashImpl.add_new base m;
  _remove_old := PolynomialHashImpl.remove_old base m;
  current_value := ph_hash;
  _obs := PolynomialHashImpl.obs;
|}.

(** [list(cls(iterable, window_size, **kwargs))] on a fresh class: the
    exception construction raised, or what [list] returns. *)
Definition rolling_list {S V} `{Strategy S V} (fuel : nat)
    (iterable : list Z) (size : pyval) (kwargs : gmap string pyval)
  : option (exn + list V) :=
  let c := construct fresh_class iterable size kwargs in
  match outcome c with
  | inl e => Some (inl e)
  | inr o => fst <$> py_list fuel (cls_after c) o
  end.

Definition kw_fixed : gmap string pyval :=
  {[ "window_type"%string := PyStr "fixed"%string ]}.
Definition kw_variable : gmap string pyval :=
  {[ "window_type"%string := PyStr "variable"%string ]}.


(** ** What the specification calls things *)

(** A positive integer, in Python's sense of integer: an instance of [int],
    of which [bool] is a subclass, whose value is above zero. *)
Definition positive_integer (k : pyval) : Prop :=
  ∃ z, int_value k = Some z ∧ 0 < z.

(** The two recognized window types. *)
Definition recognized (wt : pyval) : Prop :=
  wt = PyStr "fixed"%string ∨ wt = PyStr "variable"%string.

(** The specification's [InvalidConfiguration] stands for the two
    exceptions construction raises on a bad argument. *)
Definition InvalidConfiguration (e : exn) : Prop :=
  e = ValueError ∨ e = TypeError.

(** The contiguous sub-windows of length [k] of [l], left to right. *)
Definition sub_windows (k : nat) (l : list Z) : list (list Z) :=
  (λ i, take k (drop i l)) <$> seq 0 (length l + 1 - k).

(** The sum of a window, the reduction [Apply] uses by default. *)
Definition window_sum (l : list Z) : Z := foldr Z.add 0 l.

(** The windows an engine goes through, as plain lists.  [slide b it]: one
    element in, the oldest out, while the source lasts. *)
Fixpoint slide (b it : list Z) : list (list Z) :=
  match it with
  | [] => []
  | x :: rest => (tail b ++ [x]) :: slide (tail b ++ [x]) rest
  end.

(** [drain b]: the oldest element out each time, down to one element. *)
Fixpoint drain (b : list Z) : list (list Z) :=
  match b with
  | [] => []
  | _ :: rest =>
      match rest with
      | [] => []
      | _ :: _ => rest :: drain rest
      end
  end.

(** [steady b it]: slide while the source lasts, then drain. *)
Fixpoint steady (b it : list Z) : list (list Z) :=
  match it with
  | [] => drain b
  | x :: rest => (tail b ++ [x]) :: steady (tail b ++ [x]) rest
  end.

(** [fill k b it]: grow to [k] elements, then go on as [steady]; when the
    source ends before that, stop. *)
Fixpoint fill (k : nat) (b it : list Z) : list (list Z) :=
  match it with
  | [] => []
  | x :: rest =>
      (b ++ [x]) ::
      (if Nat.eqb (length (b ++ [x])) k then steady (b ++ [x]) rest
       else fill k (b ++ [x]) rest)
  end.

(** ** Strategies that maintain the window incrementally

    A strategy refines [Apply] with reduction [operation] when its state
    stands for a buffer ([rep k s b], for window size [k]) and each of its
    methods does to the state what [Apply]'s does to the buffer. *)
Definition step_agrees {S} (rep : Z → S → list Z → Prop) (k : Z)
    (r : (exn + unit) * (S * list Z))
    (ra : (exn + unit) * (list Z * list Z)) : Prop :=
  r.1 = ra.1 ∧ r.2.2 = ra.2.2 ∧ rep k r.2.1 ra.2.1.

Class Refines {S V : Type} `{Strategy S V}
    (operation : list Z → V) (rep : Z → S → list Z → Prop) : Prop := {
  refines_init_fixed it size k :
    int_value size = Some k → 0 < k →
    rep k (_init_fixed it size).1 (ApplyImpl.init_fixed it size).1 ∧
    (_init_fixed it size).2 = (ApplyImpl.init_fixed it size).2;
  refines_init_variable it size k :
    int_value size = Some k → 0 < k →
    rep k (_init_variable it size).1 (ApplyImpl.init_variable it size).1 ∧
    (_init_variable it size).2 = (ApplyImpl.init_variable it size).2;
  refines_add_new k s b it :
    rep k s b →
    step_agrees rep k (_add_new (s, it)) (ApplyImpl.add_new (b, it));
  refines_remove_old k s b it :
    rep k s b →
    step_agrees rep k (_remove_old (s, it)) (ApplyImpl.remove_old (b, it));
  refines_update k s b it :
    rep k s b → (it ≠ [] → Z.of_nat (length b) = k) →
    step_agrees rep k (_update (s, it)) (ApplyImpl.update (b, it));
  refines_current_value k s b : rep k s b → current_value s = operation b;
  refines_obs k s b : rep k s b → _obs s = Z.of_nat (length b);
}.

(** An engine over such a strategy next to the [Apply] engine it follows. *)
Definition sim {S} (rep : Z → S → list Z → Prop) (k : Z)
    (o : RollingObject S) (oa : RollingObject (list Z)) : Prop :=
  window_type o = window_type oa ∧ window_size o = window_size oa ∧
  _iterator o = _iterator oa ∧ _filled o = _filled oa ∧
  rep k (strat o) (strat oa).

(** Two runs of a method end alike: same result, related objects. *)
Definition alike {S} (rep : Z → S → list Z → Prop) (k : Z) {A : Type}
    (x : (exn + A) * RollingObject S)
    (y : (exn + A) * RollingObject (list Z)) : Prop :=
  x.1 = y.1 ∧ sim rep k x.2 y.2.

(** What [__new__] and [__init__] establish and every [next] keeps: while
    a window may still slide it holds [k] elements, and while it is still
    growing it holds fewer. *)
Definition inv (k : Z) (cls : class_dict) (oa : RollingObject (list Z))
  : Prop :=
  match cls__next__ cls with
  | Some bound_fixed =>
      _iterator oa ≠ [] → Z.of_nat (length (strat oa)) = k
  | Some bound_variable =>
      match _filled oa with
      | Some false =>
          int_value (window_size oa) = Some k ∧
          Z.of_nat (length (strat oa)) < k
      | Some true => _iterator oa ≠ [] → Z.of_nat (length (strat oa)) = k
      | None => True
      end
  | None => True
  end.

(** [Apply] stands for its own buffer. *)
Definition same_buffer (k : Z) (s b : list Z) : Prop := s = b.

(** The state of [PolynomialHash] stands for its buffer when the running
    hash is the direct hash of the buffer. *)
Definition ph_rep (base m : Z) (k : Z) (s : PolynomialHashState)
    (b : list Z) : Prop :=
  ph_buffer s = b ∧ ph_hash s = polynomial_hash_sequence b base m ∧
  ph_size s = k.

(** A value in front of what the remaining calls give. *)
Definition cons_result {V} (v : V) (r : exn + list V) : exn + list V :=
  match r with
  | inr vs => inr (v :: vs)
  | inl e => inl e
  end.

(** One of the sequences of [test_rolling_polynomial_hash]. *)
Definition test_sequence : list Z := [3; -8; 1; 7; -2; 4; 7; 2; 1].

(** A [PolynomialHash] engine of window size 2, filled, its source used up,
    with [1, 4] in the window. *)
Definition draining_engine : RollingObject PolynomialHashState :=
  {| window_type := PyStr "variable"; window_size := PyInt 2;
     _iterator := []; _filled := Some true;
     strat := {| ph_hash := polynomial_hash_sequence [1; 4] 101 7919;
                 ph_buffer := [1; 4]; ph_size := 2 |} |}.

(** The engine [A] of the two-engine scenario, and the class after [A],
    then after a second engine [B] of the other window type. *)
Definition engine_A := construct (H := Apply window_sum)
                         fresh_class [1; 2; 3] (PyInt 2) kw_fixed.
Definition engine_B := construct (H := Apply window_sum)
                         (cls_after engine_A) [] (PyInt 2) kw_variable.

(** What the engine's phases keep besides [inv]: a window that slides or
    drains holds between one and [k] elements, and an instance run by
    [_next_variable] has its [_filled]. *)
Definition within_window (k : Z) (cls : class_dict)
    (oa : RollingObject (list Z)) : Prop :=
  match cls__next__ cls with
  | Some bound_fixed => 1 ≤ Z.of_nat (length (strat oa)) ≤ k
  | Some bound_variable =>
      match _filled oa with
      | Some false => True
      | Some true => 1 ≤ Z.of_nat (length (strat oa)) ≤ k
      | None => False
      end
  | None => False
  end.

(** What a caller sees of a call of [next] that went well: a value or the
    end of the iteration. *)
Definition value_or_stop {V} (r : exn + V) : Prop :=
  r = inl StopIteration ∨ ∃ v, r = inr v.

(** The windows of a variable-length pass of size [k] over [l], written
    out: the prefixes of [l] of up to [k] elements; then, when [l] has [k]
    elements or more, the later sub-windows of length [k] and the ever
    shorter suffixes of the last one. *)
Definition variable_windows (k : nat) (l : list Z) : list (list Z) :=
  ((λ i, take (Datatypes.S i) l) <$> seq 0 (min k (length l))) ++
  (if (length l <? k)%nat then []
   else ((λ i, take k (drop (Datatypes.S i) l)) <$> seq 0 (length l - k)) ++
        ((λ i, drop (length l - k + Datatypes.S i) l) <$> seq 0 (k - 1))).

(** The value at [base] of the polynomial with coefficients [seq], the
    highest power first: what [test_polynomial_hash_sequence] expects,
    before the reduction. *)
Fixpoint polynomial_value (seq : list Z) (base : Z) : Z :=
  match seq with
  | [] => 0
  | x :: rest => x * base ^ Z.of_nat (length rest) + polynomial_value rest base
  end.

(** * Construction *)

Lemma py_eq_str_true v s : py_eq_str v s = true ↔ v = PyStr s.
Proof.
  destruct v; simpl; try (split; [discriminate | congruence]).
  rewrite bool_decide_eq_true. split; congruence.
Qed.

Lemma recognized_dec wt :
  recognized wt ↔
  (py_eq_str wt "fixed"%string || py_eq_str wt "variable"%string) = true.
Proof.
  unfold recognized. rewrite orb_true_iff, !py_eq_str_true. tauto.
Qed.

Lemma validate_ok k :
  positive_integer k → _validate_window_size k = inr k.
Proof.
  intros (z & Hz & Hpos). unfold _validate_window_size.
  destruct k; simpl in *; try discriminate; simplify_eq.
  - destruct (Z.leb_spec z 0); [lia | done].
  - destruct b; simpl in *; [done | lia].
Qed.

Lemma validate_error k :
  ¬ positive_integer k →
  _validate_window_size k = inl TypeError ∨
  _validate_window_size k = inl ValueError.
Proof.
  intros Hn. unfold _validate_window_size.
  destruct (isinstance_int k) eqn:Hi; simpl; [| by left].
  destruct (int_value k) as [z|] eqn:Hz; [| by left].
  destruct (Z.leb_spec z 0); [by right |].
  exfalso. apply Hn. by exists z.
Qed.

Lemma validate_inr size k' :
  _validate_window_size size = inr k' →
  k' = size ∧ ∃ z, int_value size = Some z ∧ 0 < z.
Proof.
  unfold _validate_window_size.
  destruct (isinstance_int size); simpl; [| done].
  destruct (int_value size) as [z|]; [| done].
  destruct (Z.leb_spec z 0); [done |].
  intros [= <-]. eauto.
Qed.

Section Construction.
Context {S V : Type} `{Strategy S V}.

Lemma construct_valid cls it size kw :
  positive_integer size → recognized (kwargs_window_type kw) →
  ∃ o : RollingObject S,
    outcome (construct cls it size kw) = inr o ∧
    window_type o = kwargs_window_type kw ∧ window_size o = size.
Proof.
  intros Hsize Hwt. unfold construct, __new__.
  rewrite (validate_ok _ Hsize).
  destruct Hwt as [-> | ->]; simpl; unfold __init__; simpl.
  - destruct (_init_fixed it size); simpl; eauto.
  - destruct (_init_variable it size); simpl; eauto.
Qed.

Lemma construct_invalid cls it size kw :
  ¬ positive_integer size ∨ ¬ recognized (kwargs_window_type kw) →
  ∃ e, (__new__ cls it size kw).2 = inl e ∧
       outcome (construct cls it size kw) = inl e ∧
       InvalidConfiguration e ∧
       source_after (construct cls it size kw) = it.
Proof.
  intros Hbad. unfold construct, __new__, InvalidConfiguration.
  destruct (py_eq_str (kwargs_window_type kw) "fixed"%string) eqn:Hf;
    [| destruct (py_eq_str (kwargs_window_type kw) "variable"%string)
         eqn:Hv].
  3: { simpl. eauto 10. }
  all: destruct Hbad as [Hbad | Hbad];
    [ destruct (validate_error _ Hbad) as [-> | ->]; simpl; eauto 10
    | exfalso; apply Hbad, recognized_dec; rewrite Hf, ?Hv; done ].
Qed.
End Construction.

(** C5: construction raises [InvalidConfiguration] (a [ValueError] or a
    [TypeError]) exactly when [window_size] is not a positive integer or
    [window_type] is not one of ['fixed'] and ['variable']; in particular it
    does for the sizes 0, -3 and 2.5; in every other case an engine is
    produced. *)
Theorem construction_fails_iff_invalid
    {S V : Type} `{Strategy S V} cls it size kw :
  ((∃ e, outcome (construct cls it size kw) = inl e ∧ InvalidConfiguration e)
   ↔ ¬ positive_integer size ∨ ¬ recognized (kwargs_window_type kw))
  ∧ ((∃ o : RollingObject S, outcome (construct cls it size kw) = inr o)
     ↔ positive_integer size ∧ recognized (kwargs_window_type kw))
  ∧ (∀ bad, bad ∈ [PyInt 0; PyInt (-3); PyFloat (5 # 2)] →
       ∃ e, outcome (construct cls it bad kw) = inl e ∧
            InvalidConfiguration e).
Proof.
  assert (Hdec : (positive_integer size ∧ recognized (kwargs_window_type kw))
                 ∨ (¬ positive_integer size
                    ∨ ¬ recognized (kwargs_window_type kw))).
  { destruct (py_eq_str (kwargs_window_type kw) "fixed"%string
              || py_eq_str (kwargs_window_type kw) "variable"%string)
      eqn:Hr.
    2: { right; right. rewrite recognized_dec, Hr. discriminate. }
    apply recognized_dec in Hr.
    destruct (int_value size) as [z|] eqn:Hz.
    - destruct (decide (0 < z)); [left; split; [by exists z | done] |].
      right; left. intros (z' & Hz' & Hp). simplify_eq. lia.
    - right; left. intros (z' & Hz' & Hp). simplify_eq. }
  split; [| split].
  - split.
    + intros (e & He & _). destruct Hdec as [[Hs Hw] | Hbad]; [| done].
      destruct (construct_valid cls it size kw Hs Hw) as (o & Ho & _).
      congruence.
    + intros Hbad.
      destruct (construct_invalid cls it size kw Hbad) as (e & _ & He & Hi & _).
      eauto.
  - split.
    + intros (o & Ho). destruct Hdec as [Hok | Hbad]; [done |].
      destruct (construct_invalid cls it size kw Hbad) as (e & _ & He & _).
      congruence.
    + intros [Hs Hw].
      destruct (construct_valid cls it size kw Hs Hw) as (o & Ho & _). eauto.
  - intros bad Hbad.
    destruct (construct_invalid cls it bad kw) as (e & _ & He & Hi & _);
      [| eauto].
    left. intros (z & Hz & Hp).
    repeat (apply elem_of_cons in Hbad as [-> | Hbad]);
      simpl in Hz; simplify_eq; try lia.
    by apply elem_of_nil in Hbad.
Qed.

(** C7: when [window_size] is invalid or [window_type] is not recognized,
    [__new__] raises and returns no instance, so the call of the class
    yields the exception and no engine, and the caller's source is left as
    it was: no element has been taken from it. *)
Theorem construction_failure_consumes_nothing
    {S V : Type} `{Strategy S V} cls it size kw :
  ¬ positive_integer size ∨ ¬ recognized (kwargs_window_type kw) →
  ∃ e, (__new__ cls it size kw).2 = inl e ∧
       outcome (construct cls it size kw) = inl e ∧
       source_after (construct cls it size kw) = it.
Proof.
  intros Hbad.
  destruct (construct_invalid cls it size kw Hbad) as (e & ? & ? & _ & ?).
  eauto.
Qed.

Lemma construction_failure_consumes_nothing_witness :
  ∃ e, (__new__ fresh_class [3; 1; 4] (PyInt 0) kw_variable).2 = inl e ∧
       outcome (construct (H := Apply window_sum)
                  fresh_class [3; 1; 4] (PyInt 0) kw_variable) = inl e ∧
       source_after (construct (H := Apply window_sum)
                       fresh_class [3; 1; 4] (PyInt 0) kw_variable)
       = [3; 1; 4].
Proof.
  apply (construction_failure_consumes_nothing (H := Apply window_sum)).
  left. intros (z & Hz & Hp). simpl in Hz. injection Hz as <-. lia.
Defined.

(** C9: a call that passes no [window_type] keyword makes a fixed-window
    engine.  It does exactly what the same call with [window_type='fixed']
    does (the same class rebinding, the same instance, the same use of the
    source), and that is: the class's [__init__] and [__next__] are bound to
    [_init_fixed] and [_next_fixed], so that [next] runs [_next_fixed]; the
    instance has [window_type] ['fixed'], the window size that was passed
    and no [_filled], and is initialised by [_init_fixed]; and with a
    positive integer for [window_size] there is such an instance. *)
Theorem window_type_defaults_to_fixed
    {S V : Type} `{Strategy S V} cls it size (kw : gmap string pyval) :
  kw !! "window_type"%string = None →
  kwargs_window_type kw = PyStr "fixed"%string ∧
  construct cls it size kw
  = construct cls it size (<["window_type"%string := PyStr "fixed"%string]> kw)
  ∧ cls__init__ (cls_after (construct cls it size kw)) = Some bound_fixed
  ∧ cls__next__ (cls_after (construct cls it size kw)) = Some bound_fixed
  ∧ (∀ a : RollingObject S,
       __next__ (cls_after (construct cls it size kw)) a = _next_fixed a)
  ∧ (∀ o : RollingObject S,
       outcome (construct cls it size kw) = inr o →
       window_type o = PyStr "fixed"%string ∧ window_size o = size ∧
       _filled o = None ∧
       strat o = (_init_fixed it size).1 ∧
       _iterator o = (_init_fixed it size).2)
  ∧ (positive_integer size →
     ∃ o : RollingObject S, outcome (construct cls it size kw) = inr o).
Proof.
  intros Hnone.
  assert (Hfixed : kwargs_window_type kw = PyStr "fixed"%string).
  { unfold kwargs_window_type. by rewrite Hnone. }
  assert (Heq : kwargs_window_type kw
                = kwargs_window_type
                    (<["window_type"%string := PyStr "fixed"%string]> kw)).
  { unfold kwargs_window_type. by rewrite Hnone, lookup_insert_eq. }
  split; [done |].
  split; [unfold construct, __new__; by rewrite <- Heq |].
  assert (Hcls : cls_after (construct cls it size kw)
                 = {| cls__init__ := Some bound_fixed;
                      cls__next__ := Some bound_fixed |}).
  { unfold construct, __new__. rewrite Hfixed. simpl.
    destruct (_validate_window_size size); simpl; [done |].
    unfold __init__; simpl. by destruct (_init_fixed it size). }
  rewrite Hcls. split; [done |]. split; [done |]. split; [done |]. split.
  - intros o. unfold construct, __new__. rewrite Hfixed. simpl.
    destruct (_validate_window_size size) as [e|k] eqn:Hval; simpl;
      [done |].
    apply validate_inr in Hval as [-> _].
    unfold __init__; simpl.
    destruct (_init_fixed it size) as [s it'] eqn:Hinit. simpl.
    by intros [= <-].
  - intros Hsize.
    destruct (construct_valid cls it size kw Hsize) as (o & Ho & _);
      [left; done | eauto].
Qed.

Lemma window_type_defaults_to_fixed_witness :
  kwargs_window_type ∅ = PyStr "fixed"%string ∧
  construct (H := Apply window_sum) fresh_class [3; 1; 4; 1; 5] (PyInt 2) ∅
  = construct (H := Apply window_sum) fresh_class [3; 1; 4; 1; 5] (PyInt 2)
      (<["window_type"%string := PyStr "fixed"%string]> ∅)
  ∧ cls__init__ (cls_after (construct (H := Apply window_sum)
                              fresh_class [3; 1; 4; 1; 5] (PyInt 2) ∅))
    = Some bound_fixed
  ∧ cls__next__ (cls_after (construct (H := Apply window_sum)
                              fresh_class [3; 1; 4; 1; 5] (PyInt 2) ∅))
    = Some bound_fixed
  ∧ (∀ a : RollingObject (list Z),
       __next__ (H := Apply window_sum)
         (cls_after (construct (H := Apply window_sum)
                       fresh_class [3; 1; 4; 1; 5] (PyInt 2) ∅)) a
       = _next_fixed (H := Apply window_sum) a)
  ∧ (∀ o : RollingObject (list Z),
       outcome (construct (H := Apply window_sum)
                  fresh_class [3; 1; 4; 1; 5] (PyInt 2) ∅) = inr o →
       window_type o = PyStr "fixed"%string ∧ window_size o = PyInt 2 ∧
       _filled o = None ∧
       strat o = (_init_fixed (Strategy := Apply window_sum)
                    [3; 1; 4; 1; 5] (PyInt 2)).1 ∧
       _iterator o = (_init_fixed (Strategy := Apply window_sum)
                        [3; 1; 4; 1; 5] (PyInt 2)).2)
  ∧ (positive_integer (PyInt 2) →
     ∃ o : RollingObject (list Z),
       outcome (construct (H := Apply window_sum)
                  fresh_class [3; 1; 4; 1; 5] (PyInt 2) ∅) = inr o).
Proof.
  apply (window_type_defaults_to_fixed (H := Apply window_sum)).
  reflexivity.
Defined.

(** C10: [True] passes the window-size validation, because [isinstance]
    counts a [bool] as an [int]: with a recognized window type construction
    raises nothing and the engine's [window_size] is [True], whose value as
    a number is 1. *)
Theorem window_size_True_is_accepted
    {S V : Type} `{Strategy S V} cls it kw :
  recognized (kwargs_window_type kw) →
  _validate_window_size (PyBool true) = inr (PyBool true) ∧
  ∃ o : RollingObject S,
    outcome (construct cls it (PyBool true) kw) = inr o ∧
    window_size o = PyBool true ∧
    int_value (window_size o) = Some 1.
Proof.
  intros Hwt. split; [done |].
  destruct (construct_valid cls it (PyBool true) kw) as (o & Ho & _ & Hs);
    [by exists 1 | done |].
  exists o. by rewrite Hs.
Qed.

Lemma window_size_True_is_accepted_witness :
  _validate_window_size (PyBool true) = inr (PyBool true) ∧
  ∃ o : RollingObject (list Z),
    outcome (construct (H := Apply window_sum)
               fresh_class [3; 1; 4] (PyBool true) kw_variable) = inr o ∧
    window_size o = PyBool true ∧
    int_value (window_size o) = Some 1.
Proof.
  apply (window_size_True_is_accepted (H := Apply window_sum)).
  right. reflexivity.
Defined.

(** * The polynomial hash *)

Section HashFacts.
Variables base m : Z.

Local Abbreviation hash l := (polynomial_hash_sequence l base m).

Lemma mod_horner_step a b y : (a mod m * b + y) mod m = (a * b + y) mod m.
Proof.
  rewrite <- Zplus_mod_idemp_l, Zmult_mod_idemp_l.
  apply Zplus_mod_idemp_l.
Qed.

Lemma hash_snoc l x : hash (l ++ [x]) = (hash l * base + x) mod m.
Proof. unfold polynomial_hash_sequence. by rewrite fold_left_app. Qed.

Lemma hash_reduced l : hash l mod m = hash l.
Proof.
  destruct l as [|x l] using rev_ind; [apply Zmod_0_l |].
  rewrite hash_snoc. apply Zmod_mod.
Qed.

(** The oldest element carries the highest power of the base. *)
Lemma hash_cons x0 l :
  hash (x0 :: l) = (x0 * base ^ Z.of_nat (length l) + hash l) mod m.
Proof.
  induction l as [|y l IH] using rev_ind.
  - unfold polynomial_hash_sequence. simpl. f_equal. lia.
  - rewrite app_comm_cons, !hash_snoc, IH, length_app. simpl.
    rewrite mod_horner_step, Zplus_mod_idemp_r. f_equal.
    replace (Z.of_nat (length l + 1)) with (Z.succ (Z.of_nat (length l)))
      by lia.
    rewrite Z.pow_succ_r by lia. ring.
Qed.

Lemma pow_mod_pos_correct p : pow_mod_pos base p m = base ^ Zpos p mod m.
Proof.
  induction p as [p IH | p IH |]; simpl pow_mod_pos.
  - rewrite IH, Pos2Z.inj_xI.
    replace (2 * Zpos p + 1) with (Zpos p + Zpos p + 1) by lia.
    rewrite !Z.pow_add_r, Z.pow_1_r by lia.
    by rewrite <- Zmult_mod, Zmult_mod_idemp_l.
  - rewrite IH, Pos2Z.inj_xO.
    replace (2 * Zpos p) with (Zpos p + Zpos p) by lia.
    rewrite Z.pow_add_r by lia. by rewrite <- Zmult_mod.
  - by rewrite Z.pow_1_r.
Qed.

Lemma pow_mod_correct n : 0 ≤ n → pow_mod base n m = base ^ n mod m.
Proof.
  destruct n as [|p|p]; simpl; [done | | lia].
  intros _. apply pow_mod_pos_correct.
Qed.

(** Taking the oldest element out of the running hash. *)
Lemma evict_hash x0 l :
  ((hash (x0 :: l)
    - x0 * pow_mod base (Z.of_nat (length (x0 :: l)) - 1) m) mod m + m)
  mod m = hash l.
Proof.
  replace (Z.of_nat (length (x0 :: l)) - 1) with (Z.of_nat (length l))
    by (simpl; lia).
  rewrite pow_mod_correct by lia.
  replace ((hash (x0 :: l) - x0 * (base ^ Z.of_nat (length l) mod m)) mod m
           + m)
    with ((hash (x0 :: l) - x0 * (base ^ Z.of_nat (length l) mod m)) mod m
          + 1 * m) by ring.
  rewrite Z_mod_plus_full, Zmod_mod.
  rewrite <- Zminus_mod_idemp_r, Zmult_mod_idemp_r, Zminus_mod_idemp_r.
  rewrite hash_cons, Zminus_mod_idemp_l.
  replace (x0 * base ^ Z.of_nat (length l) + hash l
           - x0 * base ^ Z.of_nat (length l)) with (hash l) by ring.
  apply hash_reduced.
Qed.
End HashFacts.

(** * The two strategies maintain the window *)

#[export] Instance Apply_refines {V} (operation : list Z → V) :
  Refines (H := Apply operation) operation same_buffer.
Proof.
  split; unfold step_agrees, same_buffer; simpl; intros; subst; done.
Qed.

Section PolynomialHashRefines.
Variables base m : Z.

Lemma ph_rep_push k s b x :
  ph_rep base m k s b →
  ph_rep base m k (PolynomialHashImpl.push base m s x) (b ++ [x]).
Proof.
  intros (Hb & Hh & Hk). unfold ph_rep; simpl.
  by rewrite Hb, Hh, hash_snoc.
Qed.

Lemma ph_rep_evict k s x0 rest :
  ph_rep base m k s (x0 :: rest) →
  ph_rep base m k
    (PolynomialHashImpl.evict base m (Z.of_nat (length (x0 :: rest)))
       x0 rest s) rest.
Proof.
  intros (Hb & Hh & Hk). unfold ph_rep; simpl ph_hash; simpl ph_buffer.
  split; [done |]. split; [| done].
  rewrite Hh. apply evict_hash.
Qed.

Lemma ph_rep_fold k s b l :
  ph_rep base m k s b →
  ph_rep base m k (fold_left (PolynomialHashImpl.push base m) l s) (b ++ l).
Proof.
  revert s b. induction l as [|x l IH]; intros s b Hrep; simpl.
  - by rewrite app_nil_r.
  - rewrite cons_middle, app_assoc. by apply IH, ph_rep_push.
Qed.

#[export] Instance PolynomialHash_refines :
  Refines (H := PolynomialHash base m)
    (λ w, polynomial_hash_sequence w base m) (ph_rep base m).
Proof.
  split; simpl.
  - intros it size k Hk Hpos. split; [| done].
    unfold PolynomialHashImpl.init_fixed, ApplyImpl.init_fixed. simpl.
    apply (ph_rep_fold k _ [0]). rewrite Hk. by split.
  - intros it size k Hk Hpos. split; [| done].
    unfold ph_rep; simpl. by rewrite Hk.
  - intros k s b it Hrep. unfold step_agrees.
    destruct it as [|x it]; simpl; [done |].
    split; [done |]. split; [done |]. by apply ph_rep_push.
  - intros k s b it Hrep. unfold step_agrees. simpl.
    destruct Hrep as (Hb & Hh & Hk).
    unfold PolynomialHashImpl.remove_old, ApplyImpl.remove_old.
    destruct b as [|x0 rest]; rewrite Hb; [done |].
    split; [done |]. split; [done |].
    simpl. apply ph_rep_evict. unfold ph_rep; auto.
  - intros k s b it Hrep Hlen. unfold step_agrees.
    destruct it as [|x it]; simpl; [done |].
    destruct Hrep as (Hb & Hh & Hk).
    destruct b as [|x0 rest]; rewrite Hb; [done |].
    split; [done |]. split; [done |].
    apply ph_rep_push. rewrite Hk, <- Hlen by done.
    apply ph_rep_evict. unfold ph_rep. repeat split; [done | done |].
    rewrite Hk. symmetry. by apply Hlen.
  - by intros k s b (_ & Hh & _).
  - intros k s b (Hb & _ & _). unfold PolynomialHashImpl.obs.
    by rewrite Hb.
Qed.
End PolynomialHashRefines.

(** * The engine, case by case *)

Section EngineFacts.
Context {S V : Type} `{Strategy S V}.

(** [_next_variable], one branch at a time. *)
Lemma next_variable_cases (o : RollingObject S) :
  _next_variable o =
  match _filled o with
  | None => (inl AttributeError, o)
  | Some filled =>
      match (if filled then inr false
             else py_int_lt (_obs (strat o)) (window_size o)) with
      | inl e => (inl e, o)
      | inr true =>
          (run on_self _add_new;
           do o' <~ get;
           run (if py_int_eq (_obs (strat o')) (window_size o')
                then modify (set_filled true) else ret tt);
           self_current_value) o
      | inr false =>
          try_except_StopIteration
            (run on_self _update; self_current_value)
            (do o' <~ get;
             if _obs (strat o') =? 1 then raise StopIteration
             else run on_self _remove_old; self_current_value) o
      end
  end.
Proof.
  unfold _next_variable. unfold bind at 1. unfold self_filled.
  destruct (_filled o) as [[|]|]; [done | | done].
  unfold bind at 1. unfold bind at 1. unfold get, lift_exn.
  by destruct (py_int_lt _ _) as [e|[|]].
Qed.
End EngineFacts.

(** * An engine over a refining strategy follows the [Apply] engine *)

Section Simulation.
Context {S V : Type} `{Strategy S V}.
Context (operation : list Z → V) (rep : Z → S → list Z → Prop).
Context `{!Refines operation rep}.

Lemma alike_bind k {A B} (m : M _ A) (ma : M _ A)
    (f : A → M _ B) (fa : A → M _ B) o oa :
  alike rep k (m o) (ma oa) →
  (∀ a o' oa', sim rep k o' oa' → alike rep k (f a o') (fa a oa')) →
  alike rep k (bind m f o) (bind ma fa oa).
Proof.
  unfold alike, bind. intros [Hr Hs] Hk.
  destruct (m o) as [r o'], (ma oa) as [ra oa']; simpl in *; subst ra.
  destruct r as [e|a]; [done |]. by apply Hk.
Qed.

Lemma alike_try k {A} (m h : M _ A) (ma ha : M _ A) o oa :
  alike rep k (m o) (ma oa) →
  (∀ o' oa', sim rep k o' oa' → alike rep k (h o') (ha oa')) →
  alike rep k (try_except_StopIteration m h o)
    (try_except_StopIteration ma ha oa).
Proof.
  unfold alike, try_except_StopIteration. intros [Hr Hs] Hh.
  destruct (m o) as [r o'], (ma oa) as [ra oa']; simpl in *; subst ra.
  destruct r as [[]|a]; try done. by apply Hh.
Qed.

Lemma alike_on_self k (m : M (S * list Z) unit)
    (ma : M (list Z * list Z) unit) o oa :
  sim rep k o oa →
  step_agrees rep k (m (strat o, _iterator o))
    (ma (strat oa, _iterator oa)) →
  alike rep k (on_self m o) (on_self ma oa).
Proof.
  intros (Hwt & Hws & Hit & Hf & Hrep) Hstep.
  unfold alike, on_self, step_agrees in *.
  destruct (m _) as [r [s' it']], (ma _) as [ra [b' ita']]; simpl in *.
  destruct Hstep as (-> & -> & Hrep'). by repeat split.
Qed.

Lemma alike_current_value k o oa :
  sim rep k o oa →
  alike rep k (self_current_value o)
    (self_current_value (H := Apply operation) oa).
Proof.
  intros Hsim. split; [| done]. simpl. f_equal.
  destruct Hsim as (_ & _ & _ & _ & Hrep).
  by apply (refines_current_value k).
Qed.

Lemma sim_obs k o oa :
  sim rep k o oa →
  _obs (strat o) = _obs (Strategy := Apply operation) (strat oa).
Proof. intros (_ & _ & _ & _ & Hrep). by apply (refines_obs k). Qed.

Lemma alike_next_fixed k o oa :
  sim rep k o oa →
  (_iterator oa ≠ [] → Z.of_nat (length (strat oa)) = k) →
  alike rep k (_next_fixed o) (_next_fixed (H := Apply operation) oa).
Proof.
  intros Hsim Hlen. unfold _next_fixed.
  apply alike_bind; [| intros; by apply alike_current_value].
  apply alike_on_self; [done |].
  destruct Hsim as (_ & _ & -> & _ & Hrep). by apply refines_update.
Qed.

Lemma alike_slide_or_drain k o oa :
  sim rep k o oa →
  (_iterator oa ≠ [] → Z.of_nat (length (strat oa)) = k) →
  alike rep k
    (try_except_StopIteration
       (run on_self _update; self_current_value (H := H))
       (do o' <~ get;
        if _obs (strat o') =? 1 then raise StopIteration
        else run on_self _remove_old; self_current_value (H := H)) o)
    (try_except_StopIteration
       (run on_self (_update (Strategy := Apply operation));
        self_current_value (H := Apply operation))
       (do o' <~ get;
        if _obs (Strategy := Apply operation) (strat o') =? 1
        then raise StopIteration
        else run on_self (_remove_old (Strategy := Apply operation));
             self_current_value (H := Apply operation)) oa).
Proof.
  intros Hsim Hlen. apply alike_try.
  - apply alike_bind; [| intros; by apply alike_current_value].
    apply alike_on_self; [done |].
    destruct Hsim as (_ & _ & -> & _ & Hrep). by apply refines_update.
  - intros o' oa' Hsim'. unfold bind at 1 3, get.
    rewrite (sim_obs k o' oa' Hsim').
    destruct (_obs (strat oa') =? 1); [by split |].
    apply alike_bind; [| intros; by apply alike_current_value].
    apply alike_on_self; [done |].
    destruct Hsim' as (_ & _ & -> & _ & Hrep').
    by apply refines_remove_old.
Qed.

Lemma alike_grow k o oa :
  sim rep k o oa →
  alike rep k
    ((run on_self _add_new;
      do o' <~ get;
      run (if py_int_eq (_obs (strat o')) (window_size o')
           then modify (set_filled true) else ret tt);
      self_current_value (H := H)) o)
    ((run on_self (_add_new (Strategy := Apply operation));
      do o' <~ get;
      run (if py_int_eq (_obs (Strategy := Apply operation) (strat o'))
                (window_size o')
           then modify (set_filled true) else ret tt);
      self_current_value (H := Apply operation)) oa).
Proof.
  intros Hsim. apply alike_bind.
  { apply alike_on_self; [done |].
    destruct Hsim as (_ & _ & -> & _ & Hrep). by apply refines_add_new. }
  intros _ o1 oa1 Hsim1. unfold bind at 1 3, get.
  rewrite (sim_obs k o1 oa1 Hsim1).
  pose proof Hsim1 as (Hwt & Hws & Hit & Hf & Hrep). rewrite Hws.
  apply alike_bind; [| intros; by apply alike_current_value].
  destruct (py_int_eq _ _); [| by split].
  split; [done |]. unfold sim, set_filled; simpl. by repeat split.
Qed.

Lemma alike_next_variable k o oa :
  sim rep k o oa →
  match _filled oa with
  | Some false =>
      int_value (window_size oa) = Some k ∧ Z.of_nat (length (strat oa)) < k
  | Some true => _iterator oa ≠ [] → Z.of_nat (length (strat oa)) = k
  | None => True
  end →
  alike rep k (_next_variable o) (_next_variable (H := Apply operation) oa).
Proof.
  intros Hsim Hinv. rewrite !next_variable_cases.
  pose proof Hsim as (Hwt & Hws & Hit & Hf & Hrep).
  rewrite Hf, (sim_obs k o oa Hsim), Hws.
  destruct (_filled oa) as [[|]|]; [| | by split].
  - by apply alike_slide_or_drain.
  - destruct Hinv as [Hk Hlt].
    assert (Hgrow : py_int_lt (_obs (Strategy := Apply operation)
                                 (strat oa)) (window_size oa)
                    = inr true).
    { simpl _obs. unfold ApplyImpl.obs. apply Z.ltb_lt in Hlt.
      destruct (window_size oa) as [z|b| | |]; simpl in *; simplify_eq;
        by rewrite Hlt. }
    rewrite Hgrow. by apply alike_grow.
Qed.

(** One call of [next]. *)
Lemma alike_next k cls o oa :
  sim rep k o oa → inv k cls oa →
  alike rep k (__next__ cls o) (__next__ (H := Apply operation) cls oa).
Proof.
  intros Hsim Hinv. unfold __next__, inv in *.
  destruct (cls__next__ cls) as [[|]|].
  - by apply alike_next_fixed.
  - by apply alike_next_variable.
  - by split.
Qed.
End Simulation.

(** * The [Apply] engine, step by step *)

Section ApplyEngine.
Context {V : Type} (operation : list Z → V).

Local Abbreviation mk := (Build_RollingObject (list Z)).
Local Abbreviation next_fixed := (_next_fixed (H := Apply operation)).
Local Abbreviation next_variable := (_next_variable (H := Apply operation)).
Local Abbreviation next := (__next__ (H := Apply operation)).

Lemma apply_fixed_step wt ws f y b x it :
  next_fixed (mk wt ws (x :: it) f (y :: b))
  = (inr (operation (b ++ [x])), mk wt ws it f (b ++ [x])).
Proof. reflexivity. Qed.

Lemma apply_fixed_stop wt ws f b :
  next_fixed (mk wt ws [] f b) = (inl StopIteration, mk wt ws [] f b).
Proof. reflexivity. Qed.

Lemma apply_steady_step wt ws y b x it :
  next_variable (mk wt ws (x :: it) (Some true) (y :: b))
  = (inr (operation (b ++ [x])), mk wt ws it (Some true) (b ++ [x])).
Proof. reflexivity. Qed.

Lemma apply_drain_step wt ws y z b :
  next_variable (mk wt ws [] (Some true) (y :: z :: b))
  = (inr (operation (z :: b)), mk wt ws [] (Some true) (z :: b)).
Proof.
  rewrite next_variable_cases. simpl.
  unfold try_except_StopIteration, bind, on_self, get; simpl.
  destruct (Pos.succ _) eqn:E; [reflexivity | reflexivity |].
  by apply Pos.succ_not_1 in E.
Qed.

Lemma apply_drain_stop wt ws y :
  next_variable (mk wt ws [] (Some true) [y])
  = (inl StopIteration, mk wt ws [] (Some true) [y]).
Proof. reflexivity. Qed.

Lemma py_int_lt_int n ws k :
  int_value ws = Some k → py_int_lt n ws = inr (n <? k).
Proof. destruct ws as [z|[|]| | |]; simpl; intros; by simplify_eq. Qed.

Lemma py_int_eq_int n ws k :
  int_value ws = Some k → py_int_eq n ws = (n =? k).
Proof. destruct ws as [z|[|]| | |]; simpl; intros; by simplify_eq. Qed.

Lemma apply_grow_step wt ws k b x it :
  int_value ws = Some k → Z.of_nat (length b) < k →
  next_variable (mk wt ws (x :: it) (Some false) b)
  = (inr (operation (b ++ [x])),
     mk wt ws it (Some (Z.of_nat (length (b ++ [x])) =? k)) (b ++ [x])).
Proof.
  intros Hk Hlt. rewrite next_variable_cases. simpl.
  unfold ApplyImpl.obs. rewrite (py_int_lt_int _ _ _ Hk).
  apply Z.ltb_lt in Hlt. rewrite Hlt.
  unfold bind, on_self, get; simpl.
  unfold ApplyImpl.obs. rewrite (py_int_eq_int _ _ _ Hk).
  by destruct (Z.of_nat (length (b ++ [x])) =? k).
Qed.

Lemma apply_grow_stop wt ws k b :
  int_value ws = Some k → Z.of_nat (length b) < k →
  next_variable (mk wt ws [] (Some false) b)
  = (inl StopIteration, mk wt ws [] (Some false) b).
Proof.
  intros Hk Hlt. rewrite next_variable_cases. simpl.
  unfold ApplyImpl.obs. rewrite (py_int_lt_int _ _ _ Hk).
  apply Z.ltb_lt in Hlt. by rewrite Hlt.
Qed.

(** A call that raises [StopIteration] leaves the [Apply] object as it
    was. *)
Lemma apply_stop_unchanged cls o o' :
  next cls o = (inl StopIteration, o') → o' = o.
Proof.
  destruct o as [wt ws it f b]. unfold __next__.
  destruct (cls__next__ cls) as [[|]|].
  - destruct it as [|x it]; [rewrite apply_fixed_stop; congruence |].
    destruct b as [|y b]; [| rewrite apply_fixed_step]; by inversion 1.
  - rewrite next_variable_cases. simpl.
    destruct f as [[|]|]; [| | by inversion 1].
    + unfold try_except_StopIteration, bind, on_self, get; simpl.
      destruct it as [|x it]; simpl.
      * destruct (ApplyImpl.obs b =? 1); [by inversion 1 |].
        destruct b; by inversion 1.
      * destruct b; by inversion 1.
    + destruct (py_int_lt _ _) as [e|[|]]; [by inversion 1 | |].
      * unfold bind, on_self, get; simpl.
        destruct it as [|x it]; simpl; [by inversion 1 |].
        destruct (py_int_eq _ _); by inversion 1.
      * unfold try_except_StopIteration, bind, on_self, get; simpl.
        destruct it as [|x it]; simpl.
        -- destruct (ApplyImpl.obs b =? 1); [by inversion 1 |].
           destruct b; by inversion 1.
        -- destruct b; by inversion 1.
  - by inversion 1.
Qed.

(** The engine keeps its invariant. *)
Lemma inv_next k cls o : inv k cls o → inv k cls (next cls o).2.
Proof.
  destruct o as [wt ws it f b]. unfold inv, __next__.
  destruct (cls__next__ cls) as [[|]|]; [| | done].
  - destruct it as [|x it]; [done |].
    destruct b as [|y b]; simpl.
    + intros Hk _. apply Hk. done.
    + intros Hk _. rewrite length_app. simpl in *.
      specialize (Hk ltac:(done)). lia.
  - simpl. destruct f as [[|]|]; [| | done].
    + destruct it as [|x it].
      * destruct b as [|y [|z b]]; simpl; try done.
        rewrite apply_drain_step. simpl. done.
      * destruct b as [|y b]; simpl.
        -- intros Hk _. by apply Hk.
        -- intros Hk _. rewrite length_app. simpl in *.
           specialize (Hk ltac:(done)). lia.
    + intros [Hk Hlt]. destruct it as [|x it].
      * rewrite (apply_grow_stop _ _ k) by done. simpl. done.
      * rewrite (apply_grow_step _ _ k) by done. simpl.
        rewrite length_app in *. simpl in *.
        destruct (Z.eqb_spec (Z.of_nat (length b + 1)) k); [done |].
        split; [done | lia].
Qed.
End ApplyEngine.

(** * Runs of [list(obj)] *)

Section Runs.
Context {S V : Type} `{Strategy S V}.

Lemma py_list_value fuel cls (o o' : RollingObject S) v :
  __next__ cls o = (inr v, o') →
  fst <$> py_list (Datatypes.S fuel) cls o
  = cons_result v <$> (fst <$> py_list fuel cls o').
Proof.
  intros Hnext. simpl. rewrite Hnext.
  by destruct (py_list fuel cls o') as [[[e|vs] o'']|].
Qed.

Lemma py_list_stop fuel cls (o o' : RollingObject S) :
  __next__ cls o = (inl StopIteration, o') →
  fst <$> py_list (Datatypes.S fuel) cls o = Some (inr []).
Proof. intros Hnext. simpl. by rewrite Hnext. Qed.
End Runs.

Section ApplyRuns.
Context {V : Type} (operation : list Z → V).

Local Abbreviation mk := (Build_RollingObject (list Z)).
Local Abbreviation run_list := (py_list (H := Apply operation)).

Lemma apply_fixed_list cls wt ws f b it fuel :
  cls__next__ cls = Some bound_fixed → b ≠ [] → (length it < fuel)%nat →
  fst <$> run_list fuel cls (mk wt ws it f b)
  = Some (inr (operation <$> slide b it)).
Proof.
  intros Hcls. revert b fuel.
  induction it as [|x it IH]; intros b fuel Hb Hfuel;
    (destruct fuel as [|fuel]; [simpl in Hfuel; lia |]).
  - apply (py_list_stop _ _ _ (mk wt ws [] f b)).
    unfold __next__. by rewrite Hcls.
  - destruct b as [|y b]; [done |].
    rewrite (py_list_value _ _ _ (mk wt ws it f (b ++ [x]))
               (operation (b ++ [x])))
      by (unfold __next__; by rewrite Hcls).
    rewrite IH; [done | by destruct b | simpl in Hfuel; lia].
Qed.

Section VariableWindows.
Variable cls : class_dict.
Hypothesis Hcls : cls__next__ cls = Some bound_variable.

Lemma apply_drain_list wt ws b fuel :
  b ≠ [] → (length b ≤ fuel)%nat →
  fst <$> run_list fuel cls (mk wt ws [] (Some true) b)
  = Some (inr (operation <$> drain b)).
Proof.
  revert fuel. induction b as [|y b IH]; intros fuel Hb Hfuel; [done |].
  destruct fuel as [|fuel]; [simpl in Hfuel; lia |].
  destruct b as [|z b].
  - apply (py_list_stop _ _ _ (mk wt ws [] (Some true) [y])).
    unfold __next__. by rewrite Hcls.
  - rewrite (py_list_value _ _ _ (mk wt ws [] (Some true) (z :: b))
               (operation (z :: b)))
      by (unfold __next__; rewrite Hcls; apply apply_drain_step).
    rewrite IH; [done | done | simpl in *; lia].
Qed.

Lemma apply_steady_list wt ws b it fuel :
  b ≠ [] → (length it + length b ≤ fuel)%nat →
  fst <$> run_list fuel cls (mk wt ws it (Some true) b)
  = Some (inr (operation <$> steady b it)).
Proof.
  revert b fuel. induction it as [|x it IH]; intros b fuel Hb Hfuel.
  - by apply apply_drain_list.
  - destruct fuel as [|fuel]; [simpl in Hfuel; lia |].
    destruct b as [|y b]; [done |].
    rewrite (py_list_value _ _ _ (mk wt ws it (Some true) (b ++ [x]))
               (operation (b ++ [x])))
      by (unfold __next__; by rewrite Hcls).
    rewrite IH; [done | by destruct b |].
    rewrite length_app. simpl in *. lia.
Qed.

Lemma apply_fill_list wt ws k b it fuel :
  int_value ws = Some (Z.of_nat k) → (length b < k)%nat →
  (length it + k < fuel)%nat →
  fst <$> run_list fuel cls (mk wt ws it (Some false) b)
  = Some (inr (operation <$> fill k b it)).
Proof.
  intros Hk. revert b fuel.
  induction it as [|x it IH]; intros b fuel Hb Hfuel;
    (destruct fuel as [|fuel]; [simpl in Hfuel; lia |]).
  - apply (py_list_stop _ _ _ (mk wt ws [] (Some false) b)).
    unfold __next__. rewrite Hcls.
    apply (apply_grow_stop _ _ _ (Z.of_nat k)); [done | lia].
  - rewrite (py_list_value _ _ _
               (mk wt ws it
                  (Some (Z.of_nat (length (b ++ [x])) =? Z.of_nat k))
                  (b ++ [x]))
               (operation (b ++ [x])))
      by (unfold __next__; rewrite Hcls;
          apply (apply_grow_step _ _ _ (Z.of_nat k)); [done | lia]).
    simpl fill.
    destruct (Nat.eqb_spec (length (b ++ [x])) k) as [Heq | Hne].
    + replace (Z.of_nat (length (b ++ [x])) =? Z.of_nat k) with true
        by (symmetry; apply Z.eqb_eq; lia).
      rewrite apply_steady_list; [done | by destruct b |].
      simpl in Hfuel. lia.
    + replace (Z.of_nat (length (b ++ [x])) =? Z.of_nat k) with false
        by (symmetry; apply Z.eqb_neq; lia).
      rewrite IH; [done | |simpl in Hfuel; lia].
      rewrite length_app in *. simpl in *. lia.
Qed.
End VariableWindows.
End ApplyRuns.

(** * The windows, as lists *)

Lemma slide_windows b it :
  b ≠ [] →
  slide b it
  = (λ i, take (length b) (drop (Datatypes.S i) (b ++ it)))
    <$> seq 0 (length it).
Proof.
  revert b. induction it as [|x it IH]; intros b Hb; [done |].
  destruct b as [|y b]; [done |].
  simpl slide. simpl length. rewrite <- cons_seq, fmap_cons. f_equal.
  - simpl. rewrite drop_0.
    replace (Datatypes.S (length b)) with (length (b ++ [x]))
      by (rewrite length_app; simpl; lia).
    replace (b ++ x :: it) with ((b ++ [x]) ++ it)
      by (by rewrite <- app_assoc).
    by rewrite take_app_length.
  - rewrite IH by (by destruct b).
    rewrite <- fmap_S_seq, <- list_fmap_compose.
    apply list_fmap_ext. intros _ i _. simpl.
    rewrite length_app. simpl.
    replace (length b + 1)%nat with (Datatypes.S (length b)) by lia.
    by rewrite <- app_assoc.
Qed.

(** A fixed window started on a placeholder and the first [k - 1] elements
    goes through the contiguous sub-windows of length [k]. *)
Lemma slide_sub_windows k l :
  (1 ≤ k ≤ length l)%nat →
  slide (0 :: take (k - 1) l) (drop (k - 1) l) = sub_windows k l.
Proof.
  intros Hk. rewrite slide_windows by done.
  unfold sub_windows. simpl length.
  rewrite length_take, length_drop.
  replace (length l - (k - 1))%nat with (length l + 1 - k)%nat by lia.
  apply list_fmap_ext. intros _ i _. simpl.
  rewrite take_drop. f_equal. lia.
Qed.

Lemma length_sub_windows k l :
  length (sub_windows k l) = (length l + 1 - k)%nat.
Proof. unfold sub_windows. by rewrite length_fmap, length_seq. Qed.

Lemma lookup_sub_windows k l i :
  (i < length l + 1 - k)%nat →
  sub_windows k l !! i = Some (take k (drop i l)).
Proof.
  intros Hi. unfold sub_windows.
  rewrite list_lookup_fmap, lookup_seq_lt by done. done.
Qed.

Lemma length_drain b : length (drain b) = (length b - 1)%nat.
Proof.
  induction b as [|y b IH]; [done |].
  destruct b as [|z b]; [done |].
  change (drain (y :: z :: b)) with ((z :: b) :: drain (z :: b)).
  simpl length in *. rewrite IH. lia.
Qed.

Lemma length_steady b it :
  b ≠ [] → length (steady b it) = (length it + length b - 1)%nat.
Proof.
  revert b. induction it as [|x it IH]; intros b Hb; simpl.
  - apply length_drain.
  - destruct b as [|y b]; [done |]. simpl.
    rewrite IH by (by destruct b). rewrite length_app. simpl. lia.
Qed.

(** A variable window emits one value per element while it grows; only a
    window that has reached [k] elements goes on to shrink. *)
Lemma length_fill k b it :
  (length b < k)%nat →
  length (fill k b it)
  = if (length b + length it <? k)%nat then length it
    else (length it + k - 1)%nat.
Proof.
  revert b. induction it as [|x it IH]; intros b Hb.
  - simpl. destruct (Nat.ltb_spec (length b + 0) k); lia.
  - simpl fill. simpl length.
    destruct (Nat.eqb_spec (length (b ++ [x])) k) as [Heq | Hne].
    + rewrite length_steady by (by destruct b).
      rewrite length_app in *. simpl in *.
      destruct (Nat.ltb_spec (length b + Datatypes.S (length it)) k); lia.
    + rewrite IH by (rewrite length_app in *; simpl in *; lia).
      rewrite length_app in *. simpl in *.
      destruct (Nat.ltb_spec (length b + 1 + length it) k),
        (Nat.ltb_spec (length b + Datatypes.S (length it)) k); lia.
Qed.

(** * From the [Apply] engine to every refining strategy *)

Section Transfer.
Context {S V : Type} `{Strategy S V}.
Context (operation : list Z → V) (rep : Z → S → list Z → Prop).
Context `{!Refines operation rep}.

Local Abbreviation construct_apply := (construct (H := Apply operation)).

(** Construction fails alike, or yields related objects on which the
    engine's invariant holds. *)
Lemma construct_alike cls it size kw :
  cls_after (construct cls it size kw)
  = cls_after (construct_apply cls it size kw) ∧
  match outcome (construct cls it size kw),
        outcome (construct_apply cls it size kw) with
  | inl e, inl e' => e = e'
  | inr o, inr oa =>
      ∃ k, int_value size = Some k ∧ 0 < k ∧ sim rep k o oa ∧
           inv k (cls_after (construct_apply cls it size kw)) oa
  | _, _ => False
  end.
Proof.
  unfold construct, __new__.
  destruct (py_eq_str (kwargs_window_type kw) "fixed") eqn:Hf;
    [| destruct (py_eq_str (kwargs_window_type kw) "variable") eqn:Hv];
    [| | done].
  - destruct (_validate_window_size size) as [e|k'] eqn:Hval; [done |].
    apply validate_inr in Hval as (-> & z & Hz & Hpos).
    apply py_eq_str_true in Hf. rewrite Hf. simpl.
    unfold __init__; simpl.
    destruct (refines_init_fixed it size z Hz Hpos) as [Hrep Hit].
    destruct (_init_fixed it size) as [s it'] eqn:Hinit. simpl in *.
    split; [done |]. exists z. split; [done |]. split; [done |].
    split; [by repeat split |].
    unfold inv; simpl. intros Hne.
    unfold head_count. rewrite Hz.
    assert (Z.to_nat (z - 1) < length it)%nat.
    { destruct (decide (Z.to_nat (z - 1) < length it)%nat); [done |].
      exfalso. apply Hne. apply drop_ge. unfold head_count.
      rewrite Hz. lia. }
    rewrite length_take. lia.
  - destruct (_validate_window_size size) as [e|k'] eqn:Hval; [done |].
    apply validate_inr in Hval as (-> & z & Hz & Hpos).
    simpl. unfold __init__; simpl.
    destruct (refines_init_variable it size z Hz Hpos) as [Hrep Hit].
    destruct (_init_variable it size) as [s it'] eqn:Hinit. simpl in *.
    split; [done |]. exists z. split; [done |]. split; [done |].
    split; [by repeat split |].
    unfold inv; simpl. split; [done | lia].
Qed.

Lemma alike_py_list k cls fuel o oa :
  sim rep k o oa → inv k cls oa →
  fst <$> py_list fuel cls o
  = fst <$> py_list (H := Apply operation) fuel cls oa.
Proof.
  revert o oa. induction fuel as [|fuel IH]; intros o oa Hsim Hinv; [done |].
  pose proof (alike_next operation rep k cls o oa Hsim Hinv) as [Hr Hs].
  pose proof (inv_next operation k cls oa Hinv) as Hinv'.
  destruct (__next__ cls o) as [r o'] eqn:Ho.
  destruct (__next__ (H := Apply operation) cls oa) as [ra oa'] eqn:Hoa.
  simpl in Hr, Hs, Hinv'. subst ra.
  destruct r as [e|v].
  - simpl. rewrite Ho, Hoa. by destruct e.
  - rewrite (py_list_value _ _ _ _ _ Ho), (py_list_value _ _ _ _ _ Hoa).
    by rewrite (IH o' oa').
Qed.

Lemma alike_advance_n k cls n o oa :
  sim rep k o oa → inv k cls oa →
  (advance_n n cls o).1 = (advance_n (H := Apply operation) n cls oa).1.
Proof.
  revert o oa. induction n as [|n IH]; intros o oa Hsim Hinv; [done |].
  pose proof (alike_next operation rep k cls o oa Hsim Hinv) as [Hr Hs].
  pose proof (inv_next operation k cls oa Hinv) as Hinv'.
  simpl.
  destruct (__next__ cls o) as [r o'].
  destruct (__next__ (H := Apply operation) cls oa) as [ra oa'].
  simpl in Hr, Hs, Hinv'. subst ra.
  specialize (IH o' oa' Hs Hinv').
  destruct (advance_n n cls o') as [rs o''].
  destruct (advance_n n cls oa') as [rsa oa''].
  simpl in *. by rewrite IH.
Qed.

(** Whatever the arguments, the two engines give the same list, or raise
    the same exception, or both need more calls. *)
Lemma rolling_list_refines fuel it size kw :
  rolling_list fuel it size kw
  = rolling_list (H := Apply operation) fuel it size kw.
Proof.
  unfold rolling_list.
  destruct (construct_alike fresh_class it size kw) as [Hcls Hout].
  rewrite Hcls.
  destruct (outcome (construct fresh_class it size kw)) as [e|o],
    (outcome (construct_apply fresh_class it size kw)) as [e'|oa];
    try done; [by subst |].
  destruct Hout as (k & _ & _ & Hsim & Hinv).
  by apply (alike_py_list k).
Qed.
End Transfer.

(** * What [list] returns *)

Section Lists.
Context {S V : Type} `{Strategy S V}.
Context (operation : list Z → V) (rep : Z → S → list Z → Prop).
Context `{!Refines operation rep}.

Lemma rolling_list_fixed fuel it size k kw :
  int_value size = Some k → 0 < k →
  kwargs_window_type kw = PyStr "fixed" →
  (length (drop (head_count size) it) < fuel)%nat →
  rolling_list fuel it size kw
  = Some (inr (operation
               <$> slide (0 :: take (head_count size) it)
                     (drop (head_count size) it))).
Proof.
  intros Hk Hpos Hkw Hfuel.
  rewrite (rolling_list_refines operation rep).
  unfold rolling_list, construct, __new__. rewrite Hkw. simpl.
  rewrite validate_ok by (by exists k). simpl.
  by apply apply_fixed_list.
Qed.

Lemma rolling_list_variable fuel it size k kw :
  int_value size = Some (Z.of_nat k) → (0 < k)%nat →
  kwargs_window_type kw = PyStr "variable" →
  (length it + k < fuel)%nat →
  rolling_list fuel it size kw = Some (inr (operation <$> fill k [] it)).
Proof.
  intros Hk Hpos Hkw Hfuel.
  rewrite (rolling_list_refines operation rep).
  unfold rolling_list, construct, __new__. rewrite Hkw. simpl.
  rewrite validate_ok by (exists (Z.of_nat k); split; [done | lia]). simpl.
  by apply apply_fill_list.
Qed.

Lemma rolling_list_invalid fuel it size kw :
  ¬ positive_integer size ∨ ¬ recognized (kwargs_window_type kw) →
  ∃ e, rolling_list fuel it size kw = Some (inl e).
Proof.
  intros Hbad. unfold rolling_list.
  destruct (construct_invalid fresh_class it size kw Hbad)
    as (e & _ & -> & _). eauto.
Qed.

(** [list] returns, given calls enough for the input and the window. *)
Lemma rolling_list_returns it size kw :
  ∃ r, ∀ fuel,
    (length it + Z.to_nat (default 0%Z (int_value size)) < fuel)%nat →
    rolling_list fuel it size kw = Some r.
Proof.
  destruct (int_value size) as [z|] eqn:Hz.
  2: { destruct (rolling_list_invalid 0 it size kw) as [e He].
       { left. intros (z & Hz' & _). congruence. }
       exists (inl e). intros fuel _. unfold rolling_list in *.
       by destruct (outcome _). }
  destruct (decide (0 < z)) as [Hpos|Hneg].
  2: { destruct (rolling_list_invalid 0 it size kw) as [e He].
       { left. intros (z' & Hz' & ?). simplify_eq. lia. }
       exists (inl e). intros fuel _. unfold rolling_list in *.
       by destruct (outcome _). }
  destruct (py_eq_str (kwargs_window_type kw) "fixed") eqn:Hf;
    [| destruct (py_eq_str (kwargs_window_type kw) "variable") eqn:Hv].
  - apply py_eq_str_true in Hf. eexists. intros fuel Hfuel.
    apply (rolling_list_fixed _ _ _ z); try done.
    rewrite length_drop. simpl in Hfuel. lia.
  - apply py_eq_str_true in Hv. eexists. intros fuel Hfuel.
    apply (rolling_list_variable _ _ _ (Z.to_nat z)); try done;
      [by rewrite Z2Nat.id by lia | lia].
  - destruct (rolling_list_invalid 0 it size kw) as [e He].
    { right. rewrite recognized_dec, Hf, Hv. discriminate. }
    exists (inl e). intros fuel _. unfold rolling_list in *.
    by destruct (outcome _).
Qed.
End Lists.

(** * Exhaustion *)

Section ApplyExhaustion.
Context {V : Type} (operation : list Z → V).

Local Abbreviation next := (__next__ (H := Apply operation)).
Local Abbreviation advance := (advance_n (H := Apply operation)).

Lemma apply_stopped cls o m :
  next cls o = (inl StopIteration, o) →
  advance m cls o = (replicate m (inl StopIteration), o).
Proof.
  intros Hstop. induction m as [|m IH]; [done |].
  simpl. by rewrite Hstop, IH.
Qed.

Lemma apply_trace_terminal cls n o i j :
  (i ≤ j < n)%nat →
  (advance n cls o).1 !! i = Some (inl StopIteration) →
  (advance n cls o).1 !! j = Some (inl StopIteration).
Proof.
  revert o i j. induction n as [|n IH]; intros o i j Hij; [lia |].
  simpl. destruct (next cls o) as [r o'] eqn:Hnext.
  destruct i as [|i].
  - destruct (advance n cls o') as [rs o''] eqn:Hrest. simpl.
    intros [= ->].
    pose proof (apply_stop_unchanged operation cls o o' Hnext) as ->.
    rewrite (apply_stopped cls o n Hnext) in Hrest.
    injection Hrest as <- <-.
    destruct j as [|j]; [done |]. simpl.
    apply lookup_replicate_2. lia.
  - destruct j as [|j]; [lia |].
    specialize (IH o' i j ltac:(lia)).
    by destruct (advance n cls o') as [rs o''].
Qed.
End ApplyExhaustion.

(** * The claims about running engines *)

(** C2: a fixed-window engine over an input of at least [k] elements, [k]
    being the window size, returns [len(input) - k + 1] values, and the
    [i]-th is the strategy's aggregate of the [i]-th contiguous sub-window
    of length [k].  [list] comes back within [len(input) - k + 2] calls. *)
Theorem fixed_window_values {S V : Type} `{Strategy S V}
    (operation : list Z → V) (rep : Z → S → list Z → Prop)
    `{!Refines operation rep} fuel it size k kw :
  int_value size = Some (Z.of_nat k) → (1 ≤ k ≤ length it)%nat →
  kwargs_window_type kw = PyStr "fixed" →
  (length it + 1 - k < fuel)%nat →
  rolling_list fuel it size kw = Some (inr (operation <$> sub_windows k it)) ∧
  length (operation <$> sub_windows k it) = (length it - k + 1)%nat ∧
  ∀ i, (i ≤ length it - k)%nat →
       (operation <$> sub_windows k it) !! i
       = Some (operation (take k (drop i it))).
Proof.
  intros Hk Hlen Hkw Hfuel.
  assert (Hhead : head_count size = (k - 1)%nat).
  { unfold head_count. rewrite Hk. lia. }
  split; [| split].
  - rewrite (rolling_list_fixed operation rep fuel it size (Z.of_nat k))
      by (try done; try lia; rewrite Hhead, length_drop; lia).
    by rewrite Hhead, slide_sub_windows.
  - rewrite length_fmap, length_sub_windows. lia.
  - intros i Hi. rewrite list_lookup_fmap, lookup_sub_windows by lia. done.
Qed.

Lemma fixed_window_values_witness :
  rolling_list (H := PolynomialHash 101 7919) 4 [3; -8; 1; 7; -2]
    (PyInt 3) kw_fixed
  = Some (inr ((λ w, polynomial_hash_sequence w 101 7919)
               <$> sub_windows 3 [3; -8; 1; 7; -2])) ∧
  length ((λ w, polynomial_hash_sequence w 101 7919)
          <$> sub_windows 3 [3; -8; 1; 7; -2]) = (5 - 3 + 1)%nat ∧
  ∀ i, (i ≤ 5 - 3)%nat →
       ((λ w, polynomial_hash_sequence w 101 7919)
        <$> sub_windows 3 [3; -8; 1; 7; -2]) !! i
       = Some (polynomial_hash_sequence
                 (take 3 (drop i [3; -8; 1; 7; -2])) 101 7919).
Proof.
  apply (fixed_window_values (H := PolynomialHash 101 7919)
           (λ w, polynomial_hash_sequence w 101 7919) (ph_rep 101 7919)
           4 [3; -8; 1; 7; -2] (PyInt 3) 3 kw_fixed).
  - reflexivity.
  - simpl. lia.
  - reflexivity.
  - simpl. lia.
Defined.

(** The number of values of a variable-window engine: [len + k - 1] when
    the input fills the window, but only [len] when it ends before that:
    [_add_new] then raises [StopIteration] outside the [try], and the
    values of the shrinking window never come. *)
Lemma variable_window_count {S V : Type} `{Strategy S V}
    (operation : list Z → V) (rep : Z → S → list Z → Prop)
    `{!Refines operation rep} fuel it size k kw :
  int_value size = Some (Z.of_nat k) → (1 ≤ k)%nat →
  kwargs_window_type kw = PyStr "variable" →
  (length it + k < fuel)%nat →
  ∃ vs, rolling_list fuel it size kw = Some (inr vs) ∧
        length vs = if (length it <? k)%nat then length it
                    else (length it + k - 1)%nat.
Proof.
  intros Hk Hpos Hkw Hfuel. exists (operation <$> fill k [] it).
  split; [by apply (rolling_list_variable operation rep) |].
  rewrite length_fmap, length_fill by (simpl; lia). done.
Qed.

(** C1: on the input [3, 1] with window size 3 a variable-window engine
    returns the two values of the growing window and stops, where the claim
    asks for 2 + 3 - 1 = 4 values; on an empty input it returns none, and on
    an input as long as the window, [3, 1, 4], it returns 3 + 3 - 1 = 5. *)
Theorem variable_window_short_input :
  rolling_list (H := Apply (λ w, w)) 6 [3; 1] (PyInt 3) kw_variable
  = Some (inr [[3]; [3; 1]]) ∧
  rolling_list (H := Apply (λ w, w)) 6 [] (PyInt 3) kw_variable
  = Some (inr []) ∧
  rolling_list (H := Apply (λ w, w)) 7 [3; 1; 4] (PyInt 3) kw_variable
  = Some (inr [[3]; [3; 1]; [3; 1; 4]; [1; 4]; [4]]).
Proof. repeat split; vm_compute; reflexivity. Qed.

(** C3: for every input, window size, window type, base and non-zero
    modulus, [list(PolynomialHash(...))] equals [list(Apply(...))] with the
    direct Horner hash as the operation: the same values in the same order,
    or the same exception from construction; and [list] does return. *)
Theorem polynomial_hash_agrees_with_apply base m it size kw :
  m ≠ 0 →
  (∀ fuel,
     rolling_list (H := PolynomialHash base m) fuel it size kw
     = rolling_list (H := Apply (λ w, polynomial_hash_sequence w base m))
         fuel it size kw) ∧
  ∃ r, ∀ fuel,
    (length it + Z.to_nat (default 0%Z (int_value size)) < fuel)%nat →
    rolling_list (H := PolynomialHash base m) fuel it size kw = Some r.
Proof.
  intros _. split.
  - intros fuel.
    apply (rolling_list_refines _ (ph_rep base m)).
  - apply (rolling_list_returns _ (ph_rep base m)).
Qed.

Lemma polynomial_hash_agrees_with_apply_witness :
  (∀ fuel,
     rolling_list (H := PolynomialHash 101 7919) fuel
       test_sequence (PyInt 4) kw_variable
     = rolling_list (H := Apply (λ w, polynomial_hash_sequence w 101 7919))
         fuel test_sequence (PyInt 4) kw_variable) ∧
  ∃ r, ∀ fuel,
    (length test_sequence
     + Z.to_nat (default 0%Z (int_value (PyInt 4))) < fuel)%nat →
    rolling_list (H := PolynomialHash 101 7919) fuel
      test_sequence (PyInt 4) kw_variable = Some r.
Proof.
  apply (polynomial_hash_agrees_with_apply 101 7919
           test_sequence (PyInt 4) kw_variable).
  lia.
Defined.

(** C6: whatever the window type, once a call of [next] on a constructed
    engine has raised [StopIteration], every later call raises it too and
    none returns a value. *)
Theorem exhaustion_is_terminal {S V : Type} `{Strategy S V}
    (operation : list Z → V) (rep : Z → S → list Z → Prop)
    `{!Refines operation rep} cls it size kw o n i j :
  outcome (construct cls it size kw) = inr o →
  (i ≤ j < n)%nat →
  (advance_n n (cls_after (construct cls it size kw)) o).1 !! i
  = Some (inl StopIteration) →
  (advance_n n (cls_after (construct cls it size kw)) o).1 !! j
  = Some (inl StopIteration).
Proof.
  intros Ho Hij.
  destruct (construct_alike operation rep cls it size kw) as [Hcls Hout].
  rewrite Ho in Hout.
  destruct (outcome (construct (H := Apply operation) cls it size kw))
    as [e|oa]; [done |].
  destruct Hout as (k & _ & _ & Hsim & Hinv).
  rewrite Hcls, (alike_advance_n operation rep k _ n o oa Hsim Hinv).
  by apply apply_trace_terminal.
Qed.

Lemma exhaustion_is_terminal_witness :
  (advance_n (H := PolynomialHash 101 7919) 8
     (cls_after (construct (H := PolynomialHash 101 7919)
                   fresh_class [3; 1; 4] (PyInt 2) kw_variable))
     {| window_type := PyStr "variable"; window_size := PyInt 2;
        _iterator := [3; 1; 4]; _filled := Some false;
        strat := {| ph_hash := 0; ph_buffer := []; ph_size := 2 |} |}).1
  !! 7%nat = Some (inl StopIteration).
Proof.
  apply (exhaustion_is_terminal (H := PolynomialHash 101 7919)
           (λ w, polynomial_hash_sequence w 101 7919) (ph_rep 101 7919)
           fresh_class [3; 1; 4] (PyInt 2) kw_variable _ 8 4 7).
  - reflexivity.
  - lia.
  - reflexivity.
Defined.

(** C4: a variable-window engine that has filled its window and whose
    source is exhausted ([_update] raises [StopIteration]): when the window
    holds one element, [next] raises [StopIteration]; otherwise [next]
    removes the oldest element, so that the window size goes down by one,
    returns the aggregate of what is left, and leaves the engine draining;
    the calls that follow return the aggregates of the ever shorter
    windows down to one element, [size - 1] values in all, and then
    [StopIteration]. *)
Theorem draining_phase {S V : Type} `{Strategy S V}
    (operation : list Z → V) (rep : Z → S → list Z → Prop)
    `{!Refines operation rep} cls k (o : RollingObject S) b :
  cls__next__ cls = Some bound_variable →
  _filled o = Some true → _iterator o = [] →
  rep k (strat o) b → b ≠ [] →
  _obs (strat o) = Z.of_nat (length b) ∧
  (_obs (strat o) = 1 → (__next__ cls o).1 = inl StopIteration) ∧
  (_obs (strat o) ≠ 1 →
     (__next__ cls o).1 = inr (operation (tail b)) ∧
     rep k (strat (__next__ cls o).2) (tail b) ∧
     _obs (strat (__next__ cls o).2) = _obs (strat o) - 1 ∧
     _filled (__next__ cls o).2 = Some true ∧
     _iterator (__next__ cls o).2 = []) ∧
  (∀ fuel, (length b ≤ fuel)%nat →
     fst <$> py_list fuel cls o = Some (inr (operation <$> drain b))) ∧
  length (operation <$> drain b) = (length b - 1)%nat.
Proof.
  intros Hcls Hfilled Hit Hrep Hb.
  set (oa := {| window_type := window_type o; window_size := window_size o;
                _iterator := []; _filled := Some true; strat := b |}).
  assert (Hsim : sim rep k o oa).
  { unfold sim, oa; simpl. repeat split; done. }
  assert (Hinv : inv k cls oa) by (unfold inv, oa; rewrite Hcls; by simpl).
  pose proof (refines_obs k _ _ Hrep) as Hobs.
  pose proof (alike_next operation rep k cls o oa Hsim Hinv) as [Hr Hs].
  assert (Hnext : __next__ (H := Apply operation) cls oa
                  = _next_variable (H := Apply operation) oa)
    by (unfold __next__; by rewrite Hcls).
  split; [done |]. rewrite Hobs. split; [| split; [| split]].
  - intros Hone. destruct b as [|y [|z b]]; simpl in Hone; try lia.
    by rewrite Hr, Hnext.
  - intros Hmore. destruct b as [|y [|z b]]; [done | done |].
    rewrite Hnext in Hr, Hs. unfold oa in Hr, Hs.
    rewrite apply_drain_step in Hr, Hs. simpl in Hr, Hs.
    destruct Hs as (_ & _ & Hit' & Hf' & Hrep').
    repeat split; try done.
    rewrite (refines_obs k _ _ Hrep'). simpl length. lia.
  - intros fuel Hfuel.
    rewrite (alike_py_list operation rep k cls fuel o oa Hsim Hinv).
    by apply apply_drain_list.
  - by rewrite length_fmap, length_drain.
Qed.

Lemma draining_phase_witness :
  let cls := {| cls__init__ := Some bound_variable;
                cls__next__ := Some bound_variable |} in
  let next := __next__ (H := PolynomialHash 101 7919) cls draining_engine in
  _obs (Strategy := PolynomialHash 101 7919) (strat draining_engine)
  = Z.of_nat (length [1; 4]) ∧
  (_obs (Strategy := PolynomialHash 101 7919) (strat draining_engine) = 1 →
   next.1 = inl StopIteration) ∧
  (_obs (Strategy := PolynomialHash 101 7919) (strat draining_engine) ≠ 1 →
     next.1 = inr (polynomial_hash_sequence (tail [1; 4]) 101 7919) ∧
     ph_rep 101 7919 2 (strat next.2) (tail [1; 4]) ∧
     _obs (Strategy := PolynomialHash 101 7919) (strat next.2)
     = _obs (Strategy := PolynomialHash 101 7919) (strat draining_engine) - 1 ∧
     _filled next.2 = Some true ∧
     _iterator next.2 = []) ∧
  (∀ fuel, (length [1; 4] ≤ fuel)%nat →
     fst <$> py_list (H := PolynomialHash 101 7919) fuel cls draining_engine
     = Some (inr ((λ w, polynomial_hash_sequence w 101 7919)
                  <$> drain [1; 4]))) ∧
  length ((λ w, polynomial_hash_sequence w 101 7919) <$> drain [1; 4])
  = (length [1; 4] - 1)%nat.
Proof.
  apply (draining_phase (H := PolynomialHash 101 7919)
           (λ w, polynomial_hash_sequence w 101 7919) (ph_rep 101 7919)
           {| cls__init__ := Some bound_variable;
              cls__next__ := Some bound_variable |}
           2 draining_engine [1; 4]).
  - reflexivity.
  - reflexivity.
  - reflexivity.
  - unfold ph_rep. simpl. repeat split; reflexivity.
  - discriminate.
Defined.

(** C8: [A = Apply([1, 2, 3], 2, window_type='fixed')] alone returns 3
    from its first [next].  With [B = Apply([], 2, window_type='variable')]
    constructed in between, the class's [__next__] is [_next_variable],
    which reads [A._filled], an attribute a fixed-window instance does not
    have: the same call on [A] raises [AttributeError]. *)
Theorem second_engine_rebinds_first :
  ∃ a b,
    outcome engine_A = inr a ∧ outcome engine_B = inr b ∧
    window_type a = PyStr "fixed" ∧
    cls__next__ (cls_after engine_A) = Some bound_fixed ∧
    cls__next__ (cls_after engine_B) = Some bound_variable ∧
    (__next__ (H := Apply window_sum) (cls_after engine_A) a).1 = inr 3 ∧
    (__next__ (H := Apply window_sum) (cls_after engine_B) a).1
    = inl AttributeError.
Proof. do 2 eexists. repeat split; vm_compute; reflexivity. Qed.

(** * Further properties of construction *)

(** X1: which exception construction raises.  An unrecognized
    [window_type] is a [ValueError] whatever the [window_size]; with a
    recognized one, a [window_size] that is no [int] instance is a
    [TypeError] and an [int] that is zero or negative a [ValueError]. *)
Theorem construction_error_kinds
    {S V : Type} `{Strategy S V} cls it size kw :
  (¬ recognized (kwargs_window_type kw) →
   outcome (construct cls it size kw) = inl ValueError) ∧
  (recognized (kwargs_window_type kw) → isinstance_int size = false →
   outcome (construct cls it size kw) = inl TypeError) ∧
  (recognized (kwargs_window_type kw) →
   ∀ z, int_value size = Some z → z ≤ 0 →
        outcome (construct cls it size kw) = inl ValueError).
Proof.
  unfold construct, __new__. split; [| split].
  - intros Hn.
    destruct (py_eq_str (kwargs_window_type kw) "fixed") eqn:Hf;
      [exfalso; apply Hn, recognized_dec; by rewrite Hf |].
    destruct (py_eq_str (kwargs_window_type kw) "variable") eqn:Hv;
      [exfalso; apply Hn, recognized_dec; by rewrite Hf, Hv | done].
  - intros Hr Hi. unfold _validate_window_size. rewrite Hi.
    destruct Hr as [-> | ->]; done.
  - intros Hr z Hz Hle. unfold _validate_window_size. rewrite Hz.
    assert (isinstance_int size = true) as -> by (by destruct size).
    apply Z.leb_le in Hle. rewrite Hle.
    destruct Hr as [-> | ->]; done.
Qed.

(** X2: the class is rebound before the window size is checked.  A call
    that fails on its [window_size] has already made [_next_variable] the
    class's [__next__], so that [next] on any instance without [_filled], as
    every fixed-window instance is, raises [AttributeError] afterwards; a
    call that fails on its [window_type] leaves the class as it was. *)
Theorem failed_construction_rebinds_class
    {S V : Type} `{Strategy S V} cls it size kw :
  (kwargs_window_type kw = PyStr "variable" → ¬ positive_integer size →
   (∃ e, outcome (construct cls it size kw) = inl e) ∧
   cls__init__ (cls_after (construct cls it size kw)) = Some bound_variable ∧
   ∀ a : RollingObject S,
     _filled a = None →
     __next__ (cls_after (construct cls it size kw)) a
     = (inl AttributeError, a)) ∧
  (¬ recognized (kwargs_window_type kw) →
   cls_after (construct cls it size kw) = cls).
Proof.
  split.
  - intros Hkw Hbad.
    destruct (construct_invalid cls it size kw (or_introl Hbad))
      as (e & Hnew & Hout & _).
    split; [eauto |].
    unfold construct, __new__ in *. rewrite Hkw in *. simpl in *.
    destruct (_validate_window_size size) as [e'|k]; [| done]. simpl.
    split; [done |]. intros a Ha. unfold __next__. simpl.
    rewrite next_variable_cases. by rewrite Ha.
  - intros Hn. unfold construct, __new__.
    destruct (py_eq_str (kwargs_window_type kw) "fixed") eqn:Hf;
      [exfalso; apply Hn, recognized_dec; by rewrite Hf |].
    destruct (py_eq_str (kwargs_window_type kw) "variable") eqn:Hv;
      [exfalso; apply Hn, recognized_dec; by rewrite Hf, Hv | done].
Qed.

Lemma cls_after_recognized {S V : Type} `{Strategy S V} cls it size kw :
  recognized (kwargs_window_type kw) →
  cls_after (construct cls it size kw)
  = if py_eq_str (kwargs_window_type kw) "fixed"
    then {| cls__init__ := Some bound_fixed; cls__next__ := Some bound_fixed |}
    else {| cls__init__ := Some bound_variable;
            cls__next__ := Some bound_variable |}.
Proof.
  intros Hr. unfold construct, __new__.
  destruct Hr as [-> | ->]; simpl;
    destruct (_validate_window_size size); simpl; try done;
    unfold __init__; simpl.
  - by destruct (_init_fixed it _).
  - by destruct (_init_variable it _).
Qed.

(** X3: engines of one window type do not disturb each other.  When a
    second call of the class asks for the window type of the first, whether
    it succeeds or fails on its window size, the class is bound as the first
    call left it, and every run of [next] on an instance goes as before. *)
Theorem same_window_type_keeps_class
    {S V : Type} `{Strategy S V} cls itA sizeA kwA itB sizeB kwB :
  recognized (kwargs_window_type kwA) →
  kwargs_window_type kwB = kwargs_window_type kwA →
  cls_after (construct (cls_after (construct cls itA sizeA kwA))
               itB sizeB kwB)
  = cls_after (construct cls itA sizeA kwA) ∧
  ∀ n (a : RollingObject S),
    advance_n n (cls_after (construct (cls_after (construct cls itA sizeA kwA))
                              itB sizeB kwB)) a
    = advance_n n (cls_after (construct cls itA sizeA kwA)) a.
Proof.
  intros Hr Hsame.
  assert (Heq : cls_after (construct (cls_after (construct cls itA sizeA kwA))
                             itB sizeB kwB)
                = cls_after (construct cls itA sizeA kwA)).
  { rewrite !cls_after_recognized by (by rewrite ?Hsame). by rewrite Hsame. }
  split; [done |]. intros n a. by rewrite Heq.
Qed.

Lemma same_window_type_keeps_class_witness :
  cls_after (construct (H := Apply window_sum)
               (cls_after engine_A) [] (PyInt 0) kw_fixed)
  = cls_after engine_A ∧
  ∀ n (a : RollingObject (list Z)),
    advance_n (H := Apply window_sum) n
      (cls_after (construct (H := Apply window_sum)
                    (cls_after engine_A) [] (PyInt 0) kw_fixed)) a
    = advance_n (H := Apply window_sum) n (cls_after engine_A) a.
Proof.
  apply (same_window_type_keeps_class (H := Apply window_sum)
           fresh_class [1; 2; 3] (PyInt 2) kw_fixed [] (PyInt 0) kw_fixed).
  - left. reflexivity.
  - reflexivity.
Defined.

(** * Further properties of [next], for any strategy *)

Section EngineInvariants.
Context {S V : Type} `{Strategy S V}.

Lemma on_self_keeps m (o : RollingObject S) :
  window_type (on_self m o).2 = window_type o ∧
  window_size (on_self m o).2 = window_size o ∧
  _filled (on_self m o).2 = _filled o.
Proof. unfold on_self. by destruct (m _) as [r [s it]]. Qed.

(** One call of [next], whatever the class is bound to, leaves the
    configuration alone, and [_filled] where it is or turns it on. *)
Lemma next_keeps cls (o : RollingObject S) :
  window_type (__next__ cls o).2 = window_type o ∧
  window_size (__next__ cls o).2 = window_size o ∧
  (_filled (__next__ cls o).2 = _filled o ∨
   _filled o = Some false ∧ _filled (__next__ cls o).2 = Some true).
Proof.
  assert (Hslide : ∀ o0 : RollingObject S,
    let r := try_except_StopIteration
               (run on_self _update; self_current_value)
               (do o' <~ get;
                if _obs (strat o') =? 1 then raise StopIteration
                else run on_self _remove_old; self_current_value) o0 in
    window_type r.2 = window_type o0 ∧ window_size r.2 = window_size o0 ∧
    _filled r.2 = _filled o0).
  { intros o0. cbv zeta.
    unfold try_except_StopIteration, bind, get, self_current_value, raise.
    pose proof (on_self_keeps _update o0) as (? & ? & ?).
    destruct (on_self _update o0) as [[e|[]] o1]; simpl in *; [| done].
    destruct e; try done.
    destruct (_obs (strat o1) =? 1); [done |].
    pose proof (on_self_keeps _remove_old o1) as (? & ? & ?).
    destruct (on_self _remove_old o1) as [[e|[]] o2]; simpl in *;
      repeat split; congruence. }
  unfold __next__. destruct (cls__next__ cls) as [[|]|]; [| | by auto].
  - unfold _next_fixed, bind, self_current_value.
    pose proof (on_self_keeps _update o) as (? & ? & ?).
    destruct (on_self _update o) as [[e|[]] o']; simpl in *; auto.
  - rewrite next_variable_cases.
    destruct (_filled o) as [[|]|] eqn:Hf; [| | by auto].
    + destruct (Hslide o) as (? & ? & ?). split; [done |]. split; [done |].
      left. congruence.
    + destruct (py_int_lt _ _) as [e|[|]]; [by auto | |].
      * unfold bind, get, self_current_value, modify, ret.
        pose proof (on_self_keeps _add_new o) as (? & ? & ?).
        destruct (on_self _add_new o) as [[e|[]] o1]; simpl in *;
          [split; [done |]; split; [done |]; left; congruence |].
        destruct (py_int_eq _ _); simpl; [by auto |].
        split; [done |]. split; [done |]. left. congruence.
      * destruct (Hslide o) as (? & ? & ?). split; [done |]. split; [done |].
        left. congruence.
Qed.

Lemma advance_n_S n cls (o : RollingObject S) :
  (advance_n (Datatypes.S n) cls o).2
  = (advance_n n cls (__next__ cls o).2).2.
Proof.
  simpl. destruct (__next__ cls o) as [r o']. simpl.
  by destruct (advance_n n cls o') as [rs o''].
Qed.
End EngineInvariants.

(** X4: what [next] never does.  However often it is called and whatever
    the class's [__next__] is bound to, [window_type] and [window_size] stay
    as they are; [_filled] is never reset once it is [True], and is never
    created on an instance that lacks it. *)
Theorem next_keeps_configuration
    {S V : Type} `{Strategy S V} n cls (o : RollingObject S) :
  window_type (advance_n n cls o).2 = window_type o ∧
  window_size (advance_n n cls o).2 = window_size o ∧
  (_filled o = Some true → _filled (advance_n n cls o).2 = Some true) ∧
  (_filled o = None → _filled (advance_n n cls o).2 = None).
Proof.
  revert o. induction n as [|n IH]; intros o; [done |].
  rewrite advance_n_S.
  destruct (IH (__next__ cls o).2) as (Hwt & Hws & Hon & Hnone).
  destruct (next_keeps cls o) as (Hwt1 & Hws1 & Hf1).
  rewrite Hwt, Hws. split; [done |]. split; [done |]. split.
  - intros Hf. apply Hon. destruct Hf1 as [Hf1 | [Hf1 _]]; congruence.
  - intros Hf. apply Hnone. destruct Hf1 as [Hf1 | [Hf1 _]]; congruence.
Qed.

(** X5: [repr] of a constructed engine, under the interpreter's limit
    [max_str_digits] on the digits of an [int] rendered as a string.  The
    window size of a constructed engine is an [int] above zero or [True],
    the window type ['fixed'] or ['variable'].  When the size is an [int] of
    more digits than the limit allows, [repr] raises [ValueError]; in every
    other case it returns
    [Rolling(func='<class>', window_size=<size>, window_type='<type>')] with
    the size in decimal, or [True] for [True], and the requested window
    type.  Either way the result is the same after any number of calls of
    [next], whatever the class is bound to by then. *)
Theorem repr_of_constructed_engine
    {S V : Type} `{Strategy S V} max_str_digits name cls it size kw
    (o : RollingObject S) :
  outcome (construct cls it size kw) = inr o →
  ∃ type_str,
    kwargs_window_type kw = PyStr type_str ∧
    (type_str = "fixed"%string ∨ type_str = "variable"%string) ∧
    ((∃ z, size = PyInt z ∧ 0 < z) ∨ size = PyBool true) ∧
    ∀ n cls',
      __repr__ max_str_digits name (advance_n n cls' (__iter__ o)).2
      = match size with
        | PyInt z =>
            if int_max_str_digits_exceeded max_str_digits z
            then Some (inl ValueError)
            else Some (inr (repr_string name (pretty z) type_str))
        | PyBool b =>
            Some (inr (repr_string name (if b then "True" else "False")
                         type_str))
        | _ => None
        end.
Proof.
  intros Ho.
  assert (Hok : positive_integer size ∧ recognized (kwargs_window_type kw)).
  { destruct (py_eq_str (kwargs_window_type kw) "fixed"
              || py_eq_str (kwargs_window_type kw) "variable") eqn:Hr.
    2: { destruct (construct_invalid cls it size kw) as (e & _ & He & _);
           [| congruence].
         right. rewrite recognized_dec, Hr. discriminate. }
    apply recognized_dec in Hr. split; [| done].
    destruct (int_value size) as [z|] eqn:Hz.
    - destruct (decide (0 < z)); [by exists z |].
      destruct (construct_invalid cls it size kw) as (e & _ & He & _);
        [| congruence].
      left. intros (z' & Hz' & Hp). simplify_eq. lia.
    - destruct (construct_invalid cls it size kw) as (e & _ & He & _);
        [| congruence].
      left. intros (z' & Hz' & Hp). simplify_eq. }
  destruct Hok as [Hsize Hwt].
  destruct (construct_valid cls it size kw Hsize Hwt) as (o' & Ho' & Ht & Hs).
  assert (o' = o) as -> by congruence.
  assert (∃ type_str, kwargs_window_type kw = PyStr type_str ∧
            (type_str = "fixed"%string ∨ type_str = "variable"%string))
    as (type_str & Hkw & Hrec).
  { destruct Hwt as [-> | ->]; eauto. }
  exists type_str. split; [done |]. split; [done |]. split.
  - destruct Hsize as (z & Hz & Hpos).
    destruct size as [z'|[|]| | |]; simpl in Hz; simplify_eq;
      [left; eauto | by right | lia].
  - intros n cls'. unfold __repr__, __iter__.
    destruct (next_keeps_configuration n cls' o) as (-> & -> & _).
    rewrite Hs, Ht, Hkw.
    destruct Hsize as (z & Hz & Hpos).
    destruct size as [z'|b| | |]; simpl in Hz; try discriminate; simpl.
    + by destruct (int_max_str_digits_exceeded max_str_digits z').
    + done.
Qed.

Lemma repr_of_constructed_engine_witness :
  ∃ type_str,
    kwargs_window_type kw_variable = PyStr type_str ∧
    (type_str = "fixed"%string ∨ type_str = "variable"%string) ∧
    ((∃ z, PyInt 12 = PyInt z ∧ 0 < z) ∨ PyInt 12 = PyBool true) ∧
    ∀ n cls',
      __repr__ 4300 "Apply"
        (advance_n (H := Apply window_sum) n cls'
           (__iter__ {| window_type := PyStr "variable";
                        window_size := PyInt 12;
                        _iterator := [3; 1; 4]; _filled := Some false;
                        strat := [] |})).2
      = if int_max_str_digits_exceeded 4300 12
        then Some (inl ValueError)
        else Some (inr (repr_string "Apply" (pretty 12) type_str)).
Proof.
  apply (repr_of_constructed_engine (H := Apply window_sum) 4300 "Apply"
           fresh_class [3; 1; 4] (PyInt 12) kw_variable).
  reflexivity.
Defined.

(** X6: once the window is full a variable-length engine steps exactly as
    a fixed-length one while the source lasts: when [_filled] is [True] and
    [_update] does not raise [StopIteration], [_next_variable] and
    [_next_fixed] return the same value, or raise the same exception, and
    leave the same object. *)
Theorem filled_window_steps_as_fixed
    {S V : Type} `{Strategy S V} (o : RollingObject S) :
  _filled o = Some true →
  (_update (strat o, _iterator o)).1 ≠ inl StopIteration →
  _next_variable o = _next_fixed o.
Proof.
  intros Hf Hup. rewrite next_variable_cases, Hf.
  unfold try_except_StopIteration, _next_fixed, bind, on_self in *.
  destruct (_update (strat o, _iterator o)) as [[e|[]] [s it]]; simpl in *;
    [| done].
  by destruct e.
Qed.

Lemma filled_window_steps_as_fixed_witness :
  _next_variable (H := Apply window_sum)
    {| window_type := PyStr "variable"; window_size := PyInt 2;
       _iterator := [4; 1]; _filled := Some true; strat := [3; 1] |}
  = _next_fixed (H := Apply window_sum)
      {| window_type := PyStr "variable"; window_size := PyInt 2;
         _iterator := [4; 1]; _filled := Some true; strat := [3; 1] |}.
Proof.
  apply (filled_window_steps_as_fixed (H := Apply window_sum)).
  - reflexivity.
  - simpl. discriminate.
Defined.

(** * The window stays within bounds *)

Section ApplyBounds.
Context {V : Type} (operation : list Z → V).

Local Abbreviation mk := (Build_RollingObject (list Z)).
Local Abbreviation next := (__next__ (H := Apply operation)).

Lemma within_next k cls o :
  inv k cls o → within_window k cls o → within_window k cls (next cls o).2.
Proof.
  destruct o as [wt ws it f b]. unfold inv, within_window, __next__.
  destruct (cls__next__ cls) as [[|]|]; [| | done].
  - destruct it as [|x it]; [done |].
    destruct b as [|y b]; simpl; [lia |].
    intros _. rewrite length_app. simpl. lia.
  - simpl. destruct f as [[|]|]; [| | done].
    + destruct it as [|x it].
      * destruct b as [|y [|z b]]; simpl; try done.
        rewrite apply_drain_step. simpl. lia.
      * destruct b as [|y b]; simpl; [lia |].
        intros _. rewrite length_app. simpl. lia.
    + intros [Hk Hlt] _. destruct it as [|x it].
      * rewrite (apply_grow_stop _ _ _ k) by done. done.
      * rewrite (apply_grow_step _ _ _ k) by done. simpl.
        rewrite length_app in *. simpl in *.
        destruct (Z.eqb_spec (Z.of_nat (length b + 1)) k); [lia | done].
Qed.

Lemma safe_next k cls o :
  inv k cls o → within_window k cls o → value_or_stop (next cls o).1.
Proof.
  destruct o as [wt ws it f b]. unfold inv, within_window, __next__.
  unfold value_or_stop.
  destruct (cls__next__ cls) as [[|]|]; [| | done].
  - destruct it as [|x it]; [by left |].
    destruct b as [|y b]; simpl; [lia | eauto].
  - simpl. destruct f as [[|]|]; [| | done].
    + destruct it as [|x it].
      * destruct b as [|y [|z b]]; simpl; [lia | by left |].
        rewrite apply_drain_step. eauto.
      * destruct b as [|y b]; simpl; [lia | eauto].
    + intros [Hk Hlt] _. destruct it as [|x it].
      * rewrite (apply_grow_stop _ _ _ k) by done. by left.
      * rewrite (apply_grow_step _ _ _ k) by done. eauto.
Qed.

(** [next] reports the end only when the source has nothing left. *)
Lemma stop_source_empty cls o :
  (next cls o).1 = inl StopIteration → _iterator o = [].
Proof.
  destruct o as [wt ws it f b]. destruct it as [|x it]; [done |].
  unfold __next__. destruct (cls__next__ cls) as [[|]|]; [| | done].
  - by destruct b.
  - rewrite next_variable_cases. simpl.
    destruct f as [[|]|]; [by destruct b | | done].
    destruct (py_int_lt _ _) as [e|[|]] eqn:Hlt.
    + destruct ws; simpl in Hlt; by simplify_eq.
    + unfold bind, on_self, get; simpl. by destruct (py_int_eq _ _).
    + by destruct b.
Qed.

Lemma within_length k cls o :
  inv k cls o → within_window k cls o →
  0 ≤ Z.of_nat (length (strat o)) ≤ k.
Proof.
  unfold inv, within_window.
  destruct (cls__next__ cls) as [[|]|]; [lia | | done].
  destruct (_filled o) as [[|]|]; lia.
Qed.

Lemma construct_within cls it size kw oa k :
  outcome (construct (H := Apply operation) cls it size kw) = inr oa →
  int_value size = Some k →
  within_window k (cls_after (construct (H := Apply operation)
                                cls it size kw)) oa.
Proof.
  unfold construct, __new__.
  destruct (py_eq_str (kwargs_window_type kw) "fixed") eqn:Hf;
    [| destruct (py_eq_str (kwargs_window_type kw) "variable") eqn:Hv];
    [| | done].
  - destruct (_validate_window_size size) as [e|k'] eqn:Hval; [done |].
    apply validate_inr in Hval as (-> & z & Hz & Hpos).
    simpl. intros [= <-] Hk. simplify_eq.
    unfold within_window; simpl. unfold head_count. rewrite Hz.
    rewrite length_take. lia.
  - destruct (_validate_window_size size) as [e|k'] eqn:Hval; [done |].
    simpl. intros [= <-] Hk. by unfold within_window.
Qed.

Lemma apply_list_final cls fuel o vs o' :
  py_list (H := Apply operation) fuel cls o = Some (inr vs, o') →
  next cls o' = (inl StopIteration, o').
Proof.
  revert o vs. induction fuel as [|fuel IH]; intros o vs; [done |].
  simpl. destruct (next cls o) as [[e|v] o1] eqn:Hnext.
  - destruct e; intros [=]; subst.
    pose proof (apply_stop_unchanged operation cls _ _ Hnext) as Heq.
    by rewrite Heq in *.
  - destruct (py_list fuel cls o1) as [[[e|vs1] o2]|] eqn:Hrest; try done.
    intros [= <- <-]. by apply (IH o1 vs1).
Qed.
End ApplyBounds.

Section Bounds.
Context {S V : Type} `{Strategy S V}.
Context (operation : list Z → V) (rep : Z → S → list Z → Prop).
Context `{!Refines operation rep}.

(** The two engines stay related, and the [Apply] engine within its
    bounds, over any number of calls. *)
Lemma alike_advance_n_states k cls n o oa :
  sim rep k o oa → inv k cls oa → within_window k cls oa →
  (advance_n n cls o).1 = (advance_n (H := Apply operation) n cls oa).1 ∧
  sim rep k (advance_n n cls o).2
    (advance_n (H := Apply operation) n cls oa).2 ∧
  inv k cls (advance_n (H := Apply operation) n cls oa).2 ∧
  within_window k cls (advance_n (H := Apply operation) n cls oa).2 ∧
  Forall value_or_stop (advance_n (H := Apply operation) n cls oa).1.
Proof.
  revert o oa. induction n as [|n IH]; intros o oa Hsim Hinv Hwin.
  { simpl. by split_and!. }
  pose proof (alike_next operation rep k cls o oa Hsim Hinv) as [Hr Hs].
  pose proof (inv_next operation k cls oa Hinv) as Hinv'.
  pose proof (within_next operation k cls oa Hinv Hwin) as Hwin'.
  pose proof (safe_next operation k cls oa Hinv Hwin) as Hsafe.
  simpl.
  destruct (__next__ cls o) as [r o'].
  destruct (__next__ (H := Apply operation) cls oa) as [ra oa'].
  simpl in Hr, Hs, Hinv', Hwin', Hsafe. subst ra.
  destruct (IH o' oa' Hs Hinv' Hwin') as (IH1 & IH2 & IH3 & IH4 & IH5).
  destruct (advance_n n cls o') as [rs o''].
  destruct (advance_n n cls oa') as [rsa oa''].
  simpl in *. subst rsa. split_and!; try done. by constructor.
Qed.

Lemma alike_py_list_states k cls fuel o oa :
  sim rep k o oa → inv k cls oa →
  match py_list fuel cls o, py_list (H := Apply operation) fuel cls oa with
  | Some (r, o'), Some (ra, oa') =>
      r = ra ∧ sim rep k o' oa' ∧ inv k cls oa'
  | None, None => True
  | _, _ => False
  end.
Proof.
  revert o oa. induction fuel as [|fuel IH]; intros o oa Hsim Hinv; [done |].
  pose proof (alike_next operation rep k cls o oa Hsim Hinv) as [Hr Hs].
  pose proof (inv_next operation k cls oa Hinv) as Hinv'.
  simpl.
  destruct (__next__ cls o) as [r o'].
  destruct (__next__ (H := Apply operation) cls oa) as [ra oa'].
  simpl in Hr, Hs, Hinv'. subst ra.
  destruct r as [e|v]; [by destruct e |].
  specialize (IH o' oa' Hs Hinv').
  destruct (py_list fuel cls o') as [[[e|vs] o'']|],
    (py_list fuel cls oa') as [[[ea|vsa] oa'']|]; try done;
    destruct IH as (IH1 & IH2 & IH3); by simplify_eq.
Qed.

(** A constructed engine next to the [Apply] engine built from the same
    arguments. *)
Lemma constructed_engine cls it size kw o :
  outcome (construct cls it size kw) = inr o →
  ∃ k oa,
    int_value size = Some k ∧ 0 < k ∧ sim rep k o oa ∧
    inv k (cls_after (construct cls it size kw)) oa ∧
    within_window k (cls_after (construct cls it size kw)) oa ∧
    outcome (construct (H := Apply operation) cls it size kw) = inr oa.
Proof.
  intros Ho.
  destruct (construct_alike operation rep cls it size kw) as [Hcls Hout].
  rewrite Ho in Hout.
  destruct (outcome (construct (H := Apply operation) cls it size kw))
    as [e|oa] eqn:Hoa; [done |].
  destruct Hout as (k & Hk & Hpos & Hsim & Hinv).
  exists k, oa. rewrite Hcls. split_and!; try done.
  by apply construct_within.
Qed.
End Bounds.

(** X7: [next] on a constructed engine either returns a value or raises
    [StopIteration].  With the class bound as the engine's construction left
    it, no call in any run of calls raises anything else: the window is
    never popped when empty, [_filled] is never missing where it is read,
    and the window size always compares. *)
Theorem next_returns_or_stops {S V : Type} `{Strategy S V}
    (operation : list Z → V) (rep : Z → S → list Z → Prop)
    `{!Refines operation rep} cls it size kw o n :
  outcome (construct cls it size kw) = inr o →
  Forall value_or_stop
    (advance_n n (cls_after (construct cls it size kw)) o).1.
Proof.
  intros Ho.
  destruct (constructed_engine operation rep cls it size kw o Ho)
    as (k & oa & _ & _ & Hsim & Hinv & Hwin & _).
  destruct (alike_advance_n_states operation rep k _ n o oa Hsim Hinv Hwin)
    as (-> & _ & _ & _ & Hsafe).
  done.
Qed.

Lemma next_returns_or_stops_witness :
  Forall value_or_stop
    (advance_n (H := PolynomialHash 101 7919) 9
       (cls_after (construct (H := PolynomialHash 101 7919)
                     fresh_class [3; 1; 4] (PyInt 2) kw_variable))
       {| window_type := PyStr "variable"; window_size := PyInt 2;
          _iterator := [3; 1; 4]; _filled := Some false;
          strat := {| ph_hash := 0; ph_buffer := []; ph_size := 2 |} |}).1.
Proof.
  apply (next_returns_or_stops (H := PolynomialHash 101 7919)
           (λ w, polynomial_hash_sequence w 101 7919) (ph_rep 101 7919)
           fresh_class [3; 1; 4] (PyInt 2) kw_variable _ 9).
  reflexivity.
Defined.

(** X8: the window of a constructed engine never holds more than
    [window_size] elements: after any number of calls of [next] the
    strategy's count of observations [_obs] is between 0 and the window
    size. *)
Theorem window_never_exceeds_size {S V : Type} `{Strategy S V}
    (operation : list Z → V) (rep : Z → S → list Z → Prop)
    `{!Refines operation rep} cls it size kw o k n :
  outcome (construct cls it size kw) = inr o →
  int_value size = Some k →
  0 ≤ _obs (strat (advance_n n (cls_after (construct cls it size kw)) o).2)
    ≤ k.
Proof.
  intros Ho Hk.
  destruct (constructed_engine operation rep cls it size kw o Ho)
    as (k' & oa & Hk' & _ & Hsim & Hinv & Hwin & _).
  assert (k' = k) as -> by congruence.
  destruct (alike_advance_n_states operation rep k _ n o oa Hsim Hinv Hwin)
    as (_ & Hsim' & Hinv' & Hwin' & _).
  destruct Hsim' as (_ & _ & _ & _ & Hrep).
  rewrite (refines_obs k _ _ Hrep).
  by apply (within_length k (cls_after (construct cls it size kw))).
Qed.

Lemma window_never_exceeds_size_witness :
  0 ≤ _obs (Strategy := PolynomialHash 101 7919)
        (strat (advance_n (H := PolynomialHash 101 7919) 4
                  (cls_after (construct (H := PolynomialHash 101 7919)
                                fresh_class [3; 1; 4] (PyInt 2) kw_variable))
                  {| window_type := PyStr "variable"; window_size := PyInt 2;
                     _iterator := [3; 1; 4]; _filled := Some false;
                     strat := {| ph_hash := 0; ph_buffer := [];
                                 ph_size := 2 |} |}).2)
    ≤ 2.
Proof.
  apply (window_never_exceeds_size (H := PolynomialHash 101 7919)
           (λ w, polynomial_hash_sequence w 101 7919) (ph_rep 101 7919)
           fresh_class [3; 1; 4] (PyInt 2) kw_variable _ 2 4).
  - reflexivity.
  - reflexivity.
Defined.

(** X9: [list] uses the engine up.  When [list(engine)] has returned, the
    engine's source has no element left, and a second [list] over the same
    engine returns the empty list at its first call of [next]. *)
Theorem list_uses_up_the_engine {S V : Type} `{Strategy S V}
    (operation : list Z → V) (rep : Z → S → list Z → Prop)
    `{!Refines operation rep} cls it size kw o fuel vs o' :
  outcome (construct cls it size kw) = inr o →
  py_list fuel (cls_after (construct cls it size kw)) (__iter__ o)
  = Some (inr vs, o') →
  _iterator o' = [] ∧
  ∀ fuel',
    fst <$> py_list (Datatypes.S fuel')
              (cls_after (construct cls it size kw)) (__iter__ o')
    = Some (inr []).
Proof.
  intros Ho Hlist. unfold __iter__ in *.
  destruct (constructed_engine operation rep cls it size kw o Ho)
    as (k & oa & _ & _ & Hsim & Hinv & _ & _).
  pose proof (alike_py_list_states operation rep k _ fuel o oa Hsim Hinv)
    as Hrun.
  rewrite Hlist in Hrun.
  destruct (py_list fuel _ oa) as [[ra oa']|] eqn:Hlista; [| done].
  destruct Hrun as (<- & Hsim' & Hinv').
  pose proof (apply_list_final operation _ _ _ _ _ Hlista) as Hstop.
  pose proof (alike_next operation rep k _ o' oa' Hsim' Hinv') as [Hr _].
  rewrite Hstop in Hr. simpl in Hr. split.
  - destruct Hsim' as (_ & _ & -> & _).
    apply (stop_source_empty operation
             (cls_after (construct cls it size kw))).
    by rewrite Hstop.
  - intros fuel'.
    destruct (__next__ (cls_after (construct cls it size kw)) o')
      as [r o''] eqn:Hnext.
    simpl in Hr. subst r. by apply (py_list_stop _ _ _ o'').
Qed.

Lemma list_uses_up_the_engine_witness :
  _iterator
    {| window_type := PyStr "variable"; window_size := PyInt 2;
       _iterator := []; _filled := Some true; strat := [4] |} = [] ∧
  ∀ fuel',
    fst <$> py_list (H := Apply window_sum) (Datatypes.S fuel')
              (cls_after (construct (H := Apply window_sum)
                            fresh_class [3; 1; 4] (PyInt 2) kw_variable))
              (__iter__
                 {| window_type := PyStr "variable"; window_size := PyInt 2;
                    _iterator := []; _filled := Some true; strat := [4] |})
    = Some (inr []).
Proof.
  apply (list_uses_up_the_engine (H := Apply window_sum)
           window_sum same_buffer
           fresh_class [3; 1; 4] (PyInt 2) kw_variable
           {| window_type := PyStr "variable"; window_size := PyInt 2;
              _iterator := [3; 1; 4]; _filled := Some false; strat := [] |}
           5 [3; 4; 5; 4]).
  - reflexivity.
  - reflexivity.
Defined.

(** * The windows of a variable-length pass *)

Lemma drain_suffixes b :
  drain b = (λ i, drop (Datatypes.S i) b) <$> seq 0 (length b - 1).
Proof.
  induction b as [|y b IH]; [done |].
  destruct b as [|z b]; [done |].
  change (drain (y :: z :: b)) with ((z :: b) :: drain (z :: b)).
  rewrite IH. simpl length.
  replace (Datatypes.S (Datatypes.S (length b)) - 1)%nat
    with (Datatypes.S (Datatypes.S (length b) - 1)) by lia.
  rewrite <- cons_seq, fmap_cons. f_equal.
  by rewrite <- fmap_S_seq, <- list_fmap_compose.
Qed.

Lemma steady_slide_drain b it :
  b ≠ [] → steady b it = slide b it ++ drain (drop (length it) (b ++ it)).
Proof.
  revert b. induction it as [|x it IH]; intros b Hb.
  - simpl. by rewrite app_nil_r, drop_0.
  - destruct b as [|y b]; [done |]. simpl steady. simpl slide.
    rewrite IH by (by destruct b). simpl. by rewrite <- app_assoc.
Qed.

Lemma fill_prefixes k b it :
  (length b < k)%nat →
  fill k b it
  = ((λ i, b ++ take (Datatypes.S i) it)
     <$> seq 0 (min (k - length b) (length it))) ++
    (if (length b + length it <? k)%nat then []
     else steady (b ++ take (k - length b) it) (drop (k - length b) it)).
Proof.
  revert b. induction it as [|x it IH]; intros b Hb.
  - simpl. rewrite Nat.min_0_r. simpl.
    by destruct (Nat.ltb_spec (length b + 0) k); [| lia].
  - simpl fill. simpl length.
    destruct (k - length b)%nat as [|n] eqn:Hn; [lia |].
    change (min (Datatypes.S n) (Datatypes.S (length it)))
      with (Datatypes.S (min n (length it))).
    rewrite <- cons_seq, fmap_cons, <- fmap_S_seq, <- list_fmap_compose.
    simpl. f_equal.
    destruct (Nat.eqb_spec (length (b ++ [x])) k) as [Heq | Hne];
      rewrite length_app in *; simpl in *.
    + replace n with 0%nat by lia. simpl.
      destruct (Nat.ltb_spec (length b + Datatypes.S (length it)) k);
        [lia | done].
    + rewrite IH by (rewrite length_app; simpl; lia).
      rewrite length_app. simpl.
      replace (k - (length b + 1))%nat with n by lia.
      replace (length b + 1 + length it)%nat
        with (length b + Datatypes.S (length it))%nat by lia.
      f_equal.
      * apply list_fmap_ext. intros _ i _. simpl. by rewrite <- app_assoc.
      * destruct (Nat.ltb_spec (length b + Datatypes.S (length it)) k);
          [done |].
        by rewrite <- app_assoc.
Qed.

Lemma fill_variable_windows k l :
  (1 ≤ k)%nat → fill k [] l = variable_windows k l.
Proof.
  intros Hk. rewrite fill_prefixes by (simpl; lia).
  unfold variable_windows. simpl. rewrite Nat.sub_0_r. f_equal.
  destruct (Nat.ltb_spec (length l) k) as [Hlt | Hge]; [done |].
  rewrite steady_slide_drain
    by (intros Hnil; apply (f_equal length) in Hnil;
        rewrite length_take in Hnil; simpl in Hnil; lia).
  rewrite slide_windows
    by (intros Hnil; apply (f_equal length) in Hnil;
        rewrite length_take in Hnil; simpl in Hnil; lia).
  rewrite take_drop, drain_suffixes, !length_drop, length_take.
  replace (k `min` length l)%nat with k by lia.
  replace (length l - (length l - k))%nat with k by lia.
  f_equal. apply list_fmap_ext. intros _ i _. simpl.
  rewrite drop_drop. f_equal; lia.
Qed.

(** X10: the values of a variable-length pass, one by one.  With window
    size [k], [list] returns the aggregates of the prefixes of the input of
    1 up to [k] elements (all of them prefixes when the input is shorter
    than [k]), then, for an input of [k] elements or more, of each later
    sub-window of length [k], and last of the suffixes of [k - 1] down to
    one element. *)
Theorem variable_window_values {S V : Type} `{Strategy S V}
    (operation : list Z → V) (rep : Z → S → list Z → Prop)
    `{!Refines operation rep} fuel it size k kw :
  int_value size = Some (Z.of_nat k) → (1 ≤ k)%nat →
  kwargs_window_type kw = PyStr "variable" →
  (length it + k < fuel)%nat →
  rolling_list fuel it size kw
  = Some (inr (operation <$> variable_windows k it)).
Proof.
  intros Hk Hpos Hkw Hfuel.
  rewrite (rolling_list_variable operation rep fuel it size k) by done.
  by rewrite fill_variable_windows.
Qed.

Lemma variable_window_values_witness :
  rolling_list (H := PolynomialHash 101 7919) 9 [3; 1; 4; 1; 5]
    (PyInt 3) kw_variable
  = Some (inr ((λ w, polynomial_hash_sequence w 101 7919)
               <$> variable_windows 3 [3; 1; 4; 1; 5])).
Proof.
  apply (variable_window_values (H := PolynomialHash 101 7919)
           (λ w, polynomial_hash_sequence w 101 7919) (ph_rep 101 7919)
           9 [3; 1; 4; 1; 5] (PyInt 3) 3 kw_variable).
  - reflexivity.
  - lia.
  - reflexivity.
  - simpl. lia.
Defined.

(** X11: over an empty input an engine of either window type gives no
    value: the first call of [next] raises [StopIteration], and [list]
    returns the empty list. *)
Theorem empty_input_gives_no_value {S V : Type} `{Strategy S V}
    (operation : list Z → V) (rep : Z → S → list Z → Prop)
    `{!Refines operation rep} fuel size kw :
  positive_integer size → recognized (kwargs_window_type kw) →
  rolling_list (Datatypes.S fuel) [] size kw = Some (inr []).
Proof.
  intros Hsize Hwt.
  rewrite (rolling_list_refines operation rep).
  unfold rolling_list, construct, __new__.
  rewrite (validate_ok _ Hsize).
  destruct Hsize as (z & Hz & Hpos).
  destruct Hwt as [-> | ->]; simpl.
  - unfold ApplyImpl.init_fixed. rewrite take_nil, drop_nil.
    by apply (py_list_stop _ _ _
                (Build_RollingObject _ (PyStr "fixed") size [] None [0])).
  - apply (py_list_stop _ _ _
             (Build_RollingObject _ (PyStr "variable") size []
                (Some false) [])).
    unfold __next__. simpl. by apply (apply_grow_stop _ _ _ z).
Qed.

Lemma empty_input_gives_no_value_witness :
  rolling_list (H := PolynomialHash 101 7919) 1 [] (PyInt 3) kw_variable
  = Some (inr []).
Proof.
  apply (empty_input_gives_no_value (H := PolynomialHash 101 7919)
           (λ w, polynomial_hash_sequence w 101 7919) (ph_rep 101 7919)
           0 (PyInt 3) kw_variable).
  - exists 3. split; [reflexivity | lia].
  - right. reflexivity.
Defined.

(** * The hash of a sequence, as the tests expect it *)

Ltac literal_powers :=
  repeat match goal with
         | |- context [Z.of_nat ?n] =>
             let v := eval vm_compute in (Z.of_nat n) in
             change (Z.of_nat n) with v
         end.

(** X12: [polynomial_hash_sequence] is the value at [base] of the
    polynomial whose coefficients are the sequence, highest power first,
    reduced by the modulus; so the five expectations of
    [test_polynomial_hash_sequence] hold for every base and modulus, the
    first, [[3]] hashing to 3 itself, for every modulus above 3. *)
Theorem polynomial_hash_sequence_is_polynomial base m :
  (∀ seq, polynomial_hash_sequence seq base m
          = polynomial_value seq base mod m) ∧
  (3 < m → polynomial_hash_sequence [3] base m = 3) ∧
  polynomial_hash_sequence [3; 1] base m = (3 * base + 1) mod m ∧
  polynomial_hash_sequence [3; 1; 4] base m
  = (3 * base ^ 2 + 1 * base + 4) mod m ∧
  polynomial_hash_sequence [3; 1; 4; 1] base m
  = (3 * base ^ 3 + 1 * base ^ 2 + 4 * base + 1) mod m ∧
  polynomial_hash_sequence [3; 1; 4; 1; 5] base m
  = (3 * base ^ 4 + 1 * base ^ 3 + 4 * base ^ 2 + 1 * base + 5) mod m.
Proof.
  assert (Hpoly : ∀ seq, polynomial_hash_sequence seq base m
                         = polynomial_value seq base mod m).
  { induction seq as [|x seq IH]; [by rewrite Zmod_0_l |].
    rewrite hash_cons, IH. simpl polynomial_value.
    apply Zplus_mod_idemp_r. }
  split; [done |]. split; [| split_and!].
  - intros Hm. rewrite Hpoly.
    cbn [polynomial_value length]. literal_powers.
    apply Z.mod_small. lia.
  - rewrite Hpoly. f_equal.
    cbn [polynomial_value length]. literal_powers. ring.
  - rewrite Hpoly. f_equal.
    cbn [polynomial_value length]. literal_powers. ring.
  - rewrite Hpoly. f_equal.
    cbn [polynomial_value length]. literal_powers. ring.
  - rewrite Hpoly. f_equal.
    cbn [polynomial_value length]. literal_powers. ring.
Qed.

(** * The source is read one element at a time *)

Section ApplyReads.
Context {V : Type} (operation : list Z → V).

Local Abbreviation mk := (Build_RollingObject (list Z)).
Local Abbreviation next := (__next__ (H := Apply operation)).
Local Abbreviation advance := (advance_n (H := Apply operation)).

Lemma next_takes_one k cls o :
  inv k cls o → within_window k cls o →
  _iterator (next cls o).2 = drop 1 (_iterator o).
Proof.
  destruct o as [wt ws it f b]. unfold inv, within_window, __next__.
  destruct (cls__next__ cls) as [[|]|]; [| | done].
  - destruct it as [|x it]; [done |].
    destruct b as [|y b]; simpl; [lia | done].
  - simpl. destruct f as [[|]|]; [| | done].
    + destruct it as [|x it].
      * destruct b as [|y [|z b]]; simpl; [lia | done |].
        by rewrite apply_drain_step.
      * destruct b as [|y b]; simpl; [lia | done].
    + intros [Hk Hlt] _. destruct it as [|x it].
      * by rewrite (apply_grow_stop _ _ _ k).
      * by rewrite (apply_grow_step _ _ _ k).
Qed.

Lemma advance_takes_n k cls n o :
  inv k cls o → within_window k cls o →
  _iterator (advance n cls o).2 = drop n (_iterator o).
Proof.
  revert o. induction n as [|n IH]; intros o Hinv Hwin; [done |].
  rewrite advance_n_S, IH
    by (by apply inv_next || by apply within_next).
  rewrite (next_takes_one k) by done.
  rewrite drop_drop. f_equal; lia.
Qed.

Lemma filled_stays n cls (o : RollingObject (list Z)) :
  _filled o = Some true → _filled (advance n cls o).2 = Some true.
Proof.
  revert o. induction n as [|n IH]; intros o Hf; [done |].
  rewrite advance_n_S. apply IH.
  destruct (next_keeps (H := Apply operation) cls o)
    as (_ & _ & [Hf1 | [Hf1 _]]); congruence.
Qed.

(** While it grows, the window turns full at the call that brings it to
    [k] elements. *)
Lemma apply_filled_after cls wt ws k it b n :
  cls__next__ cls = Some bound_variable →
  int_value ws = Some k → Z.of_nat (length b) < k →
  _filled (advance n cls (mk wt ws it (Some false) b)).2
  = Some (k <=? Z.of_nat (length b + min n (length it))).
Proof.
  intros Hcls Hk. revert it b.
  induction n as [|n IH]; intros it b Hlt.
  - simpl. f_equal. symmetry. apply Z.leb_gt. lia.
  - rewrite advance_n_S. unfold __next__ at 1. rewrite Hcls.
    destruct it as [|x it].
    + rewrite (apply_grow_stop _ _ _ k) by done. simpl.
      rewrite IH by done. f_equal. f_equal. simpl. lia.
    + rewrite (apply_grow_step _ _ _ k) by done. simpl.
      rewrite length_app. simpl.
      destruct (Z.eqb_spec (Z.of_nat (length b + 1)) k) as [Heq | Hne].
      * rewrite filled_stays by done. f_equal. symmetry.
        apply Z.leb_le. lia.
      * rewrite IH by (rewrite length_app; simpl; lia).
        rewrite length_app. simpl. f_equal. f_equal. lia.
Qed.
End ApplyReads.

(** X13: the engine reads its source one element per call of [next], and
    never ahead: after [n] calls on a constructed engine, what is left of
    its iterator is what was left at construction less the first [n]
    elements. *)
Theorem next_reads_one_element {S V : Type} `{Strategy S V}
    (operation : list Z → V) (rep : Z → S → list Z → Prop)
    `{!Refines operation rep} cls it size kw o n :
  outcome (construct cls it size kw) = inr o →
  _iterator (advance_n n (cls_after (construct cls it size kw)) o).2
  = drop n (_iterator o).
Proof.
  intros Ho.
  destruct (constructed_engine operation rep cls it size kw o Ho)
    as (k & oa & _ & _ & Hsim & Hinv & Hwin & _).
  destruct (alike_advance_n_states operation rep k _ n o oa Hsim Hinv Hwin)
    as (_ & (_ & _ & -> & _) & _).
  destruct Hsim as (_ & _ & -> & _).
  by apply (advance_takes_n operation k).
Qed.

Lemma next_reads_one_element_witness :
  _iterator
    (advance_n (H := PolynomialHash 101 7919) 2
       (cls_after (construct (H := PolynomialHash 101 7919)
                     fresh_class [3; 1; 4; 1; 5] (PyInt 2) kw_variable))
       {| window_type := PyStr "variable"; window_size := PyInt 2;
          _iterator := [3; 1; 4; 1; 5]; _filled := Some false;
          strat := {| ph_hash := 0; ph_buffer := []; ph_size := 2 |} |}).2
  = drop 2 [3; 1; 4; 1; 5].
Proof.
  apply (next_reads_one_element (H := PolynomialHash 101 7919)
           (λ w, polynomial_hash_sequence w 101 7919) (ph_rep 101 7919)
           fresh_class [3; 1; 4; 1; 5] (PyInt 2) kw_variable
           {| window_type := PyStr "variable"; window_size := PyInt 2;
              _iterator := [3; 1; 4; 1; 5]; _filled := Some false;
              strat := {| ph_hash := 0; ph_buffer := []; ph_size := 2 |} |} 2).
  reflexivity.
Defined.

(** X14: when a variable-length window turns full.  On an engine
    constructed with window size [k], [_filled] is [False] until the call of
    [next] that brings the window to [k] elements and [True] from then on;
    over a source of fewer than [k] elements it stays [False] for good. *)
Theorem window_fills_at_window_size {S V : Type} `{Strategy S V}
    (operation : list Z → V) (rep : Z → S → list Z → Prop)
    `{!Refines operation rep} cls it size kw o k n :
  kwargs_window_type kw = PyStr "variable" →
  int_value size = Some k →
  outcome (construct cls it size kw) = inr o →
  _filled (advance_n n (cls_after (construct cls it size kw)) o).2
  = Some (k <=? Z.of_nat (min n (length (_iterator o)))).
Proof.
  intros Hkw Hk Ho.
  destruct (constructed_engine operation rep cls it size kw o Ho)
    as (k' & oa & Hk' & Hpos & Hsim & Hinv & Hwin & Hoa).
  assert (k' = k) as -> by congruence.
  destruct (alike_advance_n_states operation rep k _ n o oa Hsim Hinv Hwin)
    as (_ & (_ & _ & _ & -> & _) & _).
  destruct Hsim as (_ & _ & -> & _).
  assert (Hcls : cls__next__ (cls_after (construct cls it size kw))
                 = Some bound_variable).
  { rewrite cls_after_recognized by (right; done). by rewrite Hkw. }
  unfold construct, __new__ in Hoa. rewrite Hkw in Hoa. simpl in Hoa.
  destruct (_validate_window_size size) as [e|k'] eqn:Hval; [done |].
  apply validate_inr in Hval as (-> & _). simpl in Hoa.
  injection Hoa as <-.
  by rewrite (apply_filled_after operation _ _ _ k).
Qed.

Lemma window_fills_at_window_size_witness :
  _filled
    (advance_n (H := PolynomialHash 101 7919) 2
       (cls_after (construct (H := PolynomialHash 101 7919)
                     fresh_class [3; 1; 4; 1; 5] (PyInt 2) kw_variable))
       {| window_type := PyStr "variable"; window_size := PyInt 2;
          _iterator := [3; 1; 4; 1; 5]; _filled := Some false;
          strat := {| ph_hash := 0; ph_buffer := []; ph_size := 2 |} |}).2
  = Some (2 <=? Z.of_nat (min 2 (length [3; 1; 4; 1; 5]))).
Proof.
  apply (window_fills_at_window_size (H := PolynomialHash 101 7919)
           (λ w, polynomial_hash_sequence w 101 7919) (ph_rep 101 7919)
           fresh_class [3; 1; 4; 1; 5] (PyInt 2) kw_variable
           {| window_type := PyStr "variable"; window_size := PyInt 2;
              _iterator := [3; 1; 4; 1; 5]; _filled := Some false;
              strat := {| ph_hash := 0; ph_buffer := []; ph_size := 2 |} |} 2 2).
  - reflexivity.
  - reflexivity.
  - reflexivity.
Defined.
